(** * Consensus configuration of the node (node/consensus/config.go)

    A shallow embedding of the configuration life cycle: loading a
    configuration from a file, building the default one, merging the
    run-time overrides at export time, picking a bootstrap address and
    writing a document back.

    Go values are modelled as follows.
    - [string] is a sequence of bytes, as in Go; [[]byte] is [list byte].
    - [float64] is the kernel's binary64 type, so [== 0] has its IEEE
      meaning (true on both zeros, false on NaN).
    - a slice is the list of its elements and a map is a [gmap]; [nil] and
      the empty slice (or map) are identified, the code of this file only
      ever takes [len] of them.  The memory view of [Export], with slice
      headers and backing arrays, is in module [Mem] below.
    - an [error] records which call produced it.
    - the libraries the file calls (encoding/json, io/ioutil, math/rand,
      mapstructure, structs) and the parts of the repository that are not
      in this file (ProofOfWorkSettings, net.NodeAddr) are the fields of
      the class [Externals]; the theorems hold for every instance, and
      module [Reference] has one that computes. *)

From stdpp Require Import base strings list gmap countable.
From Stdlib Require Import ZArith Floats Ascii.
Local Open Scope string_scope.
Local Open Scope list_scope.
Local Open Scope nat_scope.

(** ** Data model *)

Definition float64 := PrimFloat.float.
Definition bytes := list Byte.byte.

(** [x == 0] on float64. *)
Definition float64_is_zero (x : float64) : bool := PrimFloat.eqb x 0%float.

Definition KindConseususPoW : string := "proofofwork".

Record ConsensusConfigCost := mkCost {
  Default : float64;
  RowDelete : float64;
  RowUpdate : float64;
  RowInsert : float64;
  TableCreate : float64
}.

Record ConsensusConfigTable := mkTable {
  Table : string;
  Table_AllowRowDelete : bool;
  Table_AllowRowUpdate : bool;
  Table_AllowRowInsert : bool;
  Table_AllowTableCreate : bool;
  Table_TransactionCost : ConsensusConfigCost
}.

Record ConsensusConfigApplication := mkApplication {
  Name : string;
  WebSite : string;
  Team : string
}.

Record consensusConfigState := mkState {
  isDefault : bool;
  filePath : string
}.

(** The zero values of the structs ([T{}] in Go). *)
Definition zero_Cost : ConsensusConfigCost := mkCost 0%float 0%float 0%float 0%float 0%float.
Definition zero_Application : ConsensusConfigApplication := mkApplication "" "" "".
Definition zero_State : consensusConfigState := mkState false "".

(** ** Errors *)

(** An [error] value, tagged with the call that made it: [errors.New] in
    this file, or one of the two libraries whose errors the file passes
    on to its caller. *)
Inductive error : Type :=
  | errors_New (text : string)
  | ioutil_error (text : string)
  | json_error (text : string).

#[global] Instance error_eq_dec : EqDecision error.
Proof. solve_decision. Defined.

(** A Go result pair [(v, err)]: either [err == nil] and [v] is
    meaningful, or [err != nil]. *)
Inductive result (A : Type) : Type :=
  | Ok (a : A)
  | Err (e : error).
Arguments Ok {A} a.
Arguments Err {A} e.

(** The three errors this file creates itself. *)
Definition ErrAddressesEmpty : error := errors_New "List of default addresses is empty".
Definition ErrAppNameEmpty : error := errors_New "Application name is empty. It is required".
Definition ErrFilePathMissed : error := errors_New "COnfig file path missed. Can not save".

(** The permission mode 0644 of the two writes. *)
Definition mode_0644 : Z := 6 * 64 + 4 * 8 + 4.

(** The error kinds of the specification, read on the error values. *)
Definition ValidationError (e : error) : Prop :=
  e = ErrAddressesEmpty ∨ e = ErrAppNameEmpty.
Definition ConfigurationError (e : error) : Prop := e = ErrFilePathMissed.

(** ** strings.Split with a one-byte separator *)

(** [strings.Split(s, sep)]: the substrings of [s] between the
    occurrences of [sep]; [n] separators give [n + 1] pieces, and the
    empty string gives one empty piece. *)
Fixpoint strings_Split (s : string) (sep : Ascii.ascii) : list string :=
  match s with
  | EmptyString => [ "" ]
  | String c rest =>
      if decide (c = sep) then "" :: strings_Split rest sep
      else match strings_Split rest sep with
           | [] => [ String c "" ]
           | piece :: pieces => String c piece :: pieces
           end
  end.

(** [strings.Join(elems, sep)] with a one-byte separator. *)
Fixpoint strings_Join (elems : list string) (sep : Ascii.ascii) : string :=
  match elems with
  | [] => ""
  | [a] => a
  | a :: elems => String.append a (String sep (strings_Join elems sep))
  end.

(** [strings.IndexByte(s, c) >= 0] *)
Fixpoint has_byte (c : Ascii.ascii) (s : string) : bool :=
  match s with
  | EmptyString => false
  | String c' rest => bool_decide (c' = c) || has_byte c rest
  end.

(** [strings.Count(s, sep)] for a one-byte separator. *)
Fixpoint count_byte (c : Ascii.ascii) (s : string) : nat :=
  match s with
  | EmptyString => 0
  | String c' rest => (if decide (c' = c) then 1 else 0) + count_byte c rest
  end.

(** ** The address list of Export (lines 146-164) *)

(** One turn of the [for _, a := range list] loop, on the slice built so
    far: [continue] leaves it as it is. *)
Definition Export_loop_body (thisnodeaddr : string)
    (addresses : list string) (a : string) : list string :=
  if decide (a = "") then addresses
  else if decide (a = "own") then
    if decide (thisnodeaddr ≠ "") then addresses ++ [thisnodeaddr]
    else addresses
  else addresses ++ [a].

Definition Export_addresses (defaultaddresses thisnodeaddr : string) : list string :=
  if decide (defaultaddresses ≠ "") then
    foldl (Export_loop_body thisnodeaddr) [] (strings_Split defaultaddresses ","%char)
  else [].

(** The override list in the words of the specification: read the
    comma-separated entries, skip the empty ones, and replace every
    ["own"] by the self address, or drop it when there is none. *)
Definition spec_resolve_entry (selfAddress entry : string) : option string :=
  if decide (entry = "") then None
  else if decide (entry = "own") then
    (if decide (selfAddress = "") then None else Some selfAddress)
  else Some entry.

Definition spec_override_list (overrideAddresses selfAddress : string) : list string :=
  omap (spec_resolve_entry selfAddress) (strings_Split overrideAddresses ","%char).

(** ** The configuration *)

Section Config.

(** The dynamic values a [map[string]interface{}] holds. *)
Context {any : Type}.

Record ConsensusConfig := mkConfig {
  Application : ConsensusConfigApplication;
  Kind : string;
  CoinsForBlockMade : float64;
  Settings : gmap string any;
  AllowTableCreate : bool;
  AllowTableDrop : bool;
  AllowRowDelete : bool;
  TransactionCost : ConsensusConfigCost;
  UnmanagedTables : list string;
  TableRules : list ConsensusConfigTable;
  InitNodesAddreses : list string;
  state : consensusConfigState
}.

(** [ConsensusConfig{}] *)
Definition zero_Config : ConsensusConfig :=
  mkConfig zero_Application "" 0%float ∅ false false false zero_Cost [] [] [] zero_State.

(** Assignments to one field of a configuration. *)
Definition set_InitNodesAddreses (l : list string) (c : ConsensusConfig) : ConsensusConfig :=
  mkConfig (Application c) (Kind c) (CoinsForBlockMade c) (Settings c)
    (AllowTableCreate c) (AllowTableDrop c) (AllowRowDelete c) (TransactionCost c)
    (UnmanagedTables c) (TableRules c) l (state c).

Definition set_Application_Name (n : string) (c : ConsensusConfig) : ConsensusConfig :=
  mkConfig (mkApplication n (WebSite (Application c)) (Team (Application c)))
    (Kind c) (CoinsForBlockMade c) (Settings c)
    (AllowTableCreate c) (AllowTableDrop c) (AllowRowDelete c) (TransactionCost c)
    (UnmanagedTables c) (TableRules c) (InitNodesAddreses c) (state c).

Definition set_CoinsForBlockMade (x : float64) (c : ConsensusConfig) : ConsensusConfig :=
  mkConfig (Application c) (Kind c) x (Settings c)
    (AllowTableCreate c) (AllowTableDrop c) (AllowRowDelete c) (TransactionCost c)
    (UnmanagedTables c) (TableRules c) (InitNodesAddreses c) (state c).

Definition set_Kind (k : string) (c : ConsensusConfig) : ConsensusConfig :=
  mkConfig (Application c) k (CoinsForBlockMade c) (Settings c)
    (AllowTableCreate c) (AllowTableDrop c) (AllowRowDelete c) (TransactionCost c)
    (UnmanagedTables c) (TableRules c) (InitNodesAddreses c) (state c).

Definition set_Settings (m : gmap string any) (c : ConsensusConfig) : ConsensusConfig :=
  mkConfig (Application c) (Kind c) (CoinsForBlockMade c) m
    (AllowTableCreate c) (AllowTableDrop c) (AllowRowDelete c) (TransactionCost c)
    (UnmanagedTables c) (TableRules c) (InitNodesAddreses c) (state c).

Definition set_state (st : consensusConfigState) (c : ConsensusConfig) : ConsensusConfig :=
  mkConfig (Application c) (Kind c) (CoinsForBlockMade c) (Settings c)
    (AllowTableCreate c) (AllowTableDrop c) (AllowRowDelete c) (TransactionCost c)
    (UnmanagedTables c) (TableRules c) (InitNodesAddreses c) st.

Definition set_isDefault (b : bool) (c : ConsensusConfig) : ConsensusConfig :=
  set_state (mkState b (filePath (state c))) c.

Definition set_filePath (fp : string) (c : ConsensusConfig) : ConsensusConfig :=
  set_state (mkState (isDefault (state c)) fp) c.

End Config.

Arguments ConsensusConfig any : clear implicits.

(** ** What the file calls and does not define *)

(** - encoding/json: [json.Marshal(cc)] and [json.Unmarshal(data, &config)]
      give the bytes or the filled configuration, or the text of the
      library's error.
    - io/ioutil: a read returns the content or the text of its error and
      changes nothing; a write returns the file system it leaves behind
      and the text of its error, if any.  The third argument of
      [WriteFile] is the permission mode.
    - [ProofOfWorkSettings] and its method [completeSettings] belong to
      this package but to another file; [mapstructure.Decode] fills a
      settings struct from a map (its error is dropped by the caller) and
      [structs.Map] turns the struct back into a map.
    - math/rand: the state of the process-wide generator, [rand.Seed] and
      [rand.Intn].
    - [net.NodeAddr], of this repository, with its zero value and its
      method [LoadFromString], whose error the caller drops. *)
Class Externals (any : Type) := {
  json_Marshal : ConsensusConfig any → string + bytes;
  json_Unmarshal : bytes → ConsensusConfig any → string + ConsensusConfig any;
  FS : Type;
  ioutil_ReadFile : string → FS → string + bytes;
  ioutil_WriteFile : string → bytes → Z → FS → FS * option string;
  ProofOfWorkSettings : Type;
  zero_ProofOfWorkSettings : ProofOfWorkSettings;
  completeSettings : ProofOfWorkSettings → ProofOfWorkSettings;
  mapstructure_Decode : gmap string any → ProofOfWorkSettings → ProofOfWorkSettings;
  structs_Map : ProofOfWorkSettings → gmap string any;
  Rng : Type;
  rand_Seed : Z → Rng → Rng;
  rand_Intn : Z → Rng → Z * Rng;
  NodeAddr : Type;
  zero_NodeAddr : NodeAddr;
  LoadFromString : string → NodeAddr → NodeAddr
}.

(** A call either returns or panics. *)
Inductive outcome (A : Type) : Type :=
  | Returns (a : A)
  | Panics.
Arguments Returns {A} a.
Arguments Panics {A}.

(** [l[i]], which panics out of range. *)
Definition index_string (l : list string) (i : Z) : outcome string :=
  if decide (0 ≤ i < Z.of_nat (length l))%Z then
    match l !! Z.to_nat i with
    | Some a => Returns a
    | None => Panics
    end
  else Panics.

Section Operations.

Context {any : Type} {ext : Externals any}.
Implicit Types cc config : ConsensusConfig any.

(** ** Export (lines 145-191) *)

(** Lines 146-172: the receiver copy [cc] once the override list and the
    node's own address have been merged into it. *)
Definition Export_merge_addresses cc
    (defaultaddresses thisnodeaddr : string) : ConsensusConfig any :=
  let addresses := Export_addresses defaultaddresses thisnodeaddr in
  let cc := if decide (0 < length addresses)
            then set_InitNodesAddreses addresses cc else cc in
  if decide (length (InitNodesAddreses cc) = 0 ∧ thisnodeaddr ≠ "")
  then set_InitNodesAddreses [thisnodeaddr] cc else cc.

(** Lines 146-186: the receiver copy that reaches [json.Marshal], or the
    error of one of the two checks. *)
Definition Export_merge cc
    (defaultaddresses appname thisnodeaddr : string) : result (ConsensusConfig any) :=
  let cc := Export_merge_addresses cc defaultaddresses thisnodeaddr in
  if decide (length (InitNodesAddreses cc) = 0) then Err ErrAddressesEmpty
  else
    let cc := if decide (appname ≠ "") then set_Application_Name appname cc else cc in
    if decide (Name (Application cc) = "") then Err ErrAppNameEmpty
    else Ok cc.

Definition Marshal cc : result bytes :=
  match json_Marshal cc with
  | inl text => Err (json_error text)
  | inr jsondata => Ok jsondata
  end.

Definition Export cc
    (defaultaddresses appname thisnodeaddr : string) : result bytes :=
  match Export_merge cc defaultaddresses appname thisnodeaddr with
  | Err e => Err e
  | Ok cc => Marshal cc
  end.

(** Computations that may use the file system and may fail. *)
Definition IO (A : Type) : Type := FS → result A * FS.

#[global] Instance IO_ret : MRet IO := λ A a fs, (Ok a, fs).
#[global] Instance IO_bind : MBind IO := λ A B k m fs,
  match m fs with
  | (Ok a, fs') => k a fs'
  | (Err e, fs') => (Err e, fs')
  end.

Definition io_fail {A} (e : error) : IO A := λ fs, (Err e, fs).

Definition io_lift {A} (r : result A) : IO A := λ fs, (r, fs).

Definition ReadFile (filepath : string) : IO bytes := λ fs,
  match ioutil_ReadFile filepath fs with
  | inl text => (Err (ioutil_error text), fs)
  | inr data => (Ok data, fs)
  end.

Definition WriteFile (filepath : string) (data : bytes) (perm : Z) : IO unit := λ fs,
  match ioutil_WriteFile filepath data perm fs with
  | (fs', Some text) => (Err (ioutil_error text), fs')
  | (fs', None) => (Ok (), fs')
  end.

Definition Unmarshal (data : bytes) config : result (ConsensusConfig any) :=
  match json_Unmarshal data config with
  | inl text => Err (json_error text)
  | inr config => Ok config
  end.

(** ** NewConfigFromFile (lines 62-102) *)

(** Lines 80-96: the defaults put in after a successful parse. *)
Definition complete_PoW_settings config : ConsensusConfig any :=
  let s := zero_ProofOfWorkSettings in
  let s := mapstructure_Decode (Settings config) s in
  let s := completeSettings s in
  set_Settings (structs_Map s) config.

Definition fill_defaults config : ConsensusConfig any :=
  let config :=
    if float64_is_zero (CoinsForBlockMade config)
    then set_CoinsForBlockMade 10%float config else config in
  let config :=
    if decide (Kind config = "") then set_Kind KindConseususPoW config else config in
  if decide (Kind config = KindConseususPoW)
  then complete_PoW_settings config else config.

Definition NewConfigFromFile (filepath : string) : IO (ConsensusConfig any) :=
  jsonStr ← ReadFile filepath;
  config ← io_lift (Unmarshal jsonStr zero_Config);
  let config := fill_defaults config in
  let config := set_isDefault false config in
  let config := set_filePath filepath config in
  mret config.

(** ** NewConfigDefault (lines 104-125) *)

Definition NewConfigDefault : IO (ConsensusConfig any) :=
  let c := zero_Config in
  let c := set_Kind KindConseususPoW c in
  let c := set_CoinsForBlockMade 10%float c in
  let c := mkConfig (Application c) (Kind c) (CoinsForBlockMade c) (Settings c)
             true true true (TransactionCost c) [] [] [] (state c) in
  let s := zero_ProofOfWorkSettings in
  let s := completeSettings s in
  let c := set_Settings (structs_Map s) c in
  let c := set_isDefault true c in
  let c := set_filePath "" c in
  mret c.

(** ** ExportToFile (lines 132-142) *)

Definition ExportToFile cc
    (filepath defaultaddresses appname thisnodeaddr : string) : IO unit :=
  jsondata ← io_lift (Export cc defaultaddresses appname thisnodeaddr);
  WriteFile filepath jsondata mode_0644.

(** ** IsDefault, SetConfigFilePath, UpdateConfig (lines 208-227) *)

Definition IsDefault cc : bool := isDefault (state cc).

(** The method has a pointer receiver: the result is the caller's
    configuration after the call. *)
Definition SetConfigFilePath (fp : string) cc : ConsensusConfig any :=
  set_filePath fp cc.

Definition UpdateConfig cc (jsondoc : bytes) : IO unit :=
  if decide (filePath (state cc) = "") then io_fail ErrFilePathMissed
  else WriteFile (filePath (state cc)) jsondoc mode_0644.

(** ** GetRandomInitialAddress (lines 194-205) *)

(** [now] is the value of [time.Now().Unix()] the call reads; the result
    is [None] for the nil pointer. *)
Definition GetRandomInitialAddress cc (now : Z) (g : Rng)
    : outcome (option NodeAddr) * Rng :=
  if decide (length (InitNodesAddreses cc) = 0) then (Returns None, g)
  else
    let g := rand_Seed now g in
    let '(i, g) := rand_Intn (Z.of_nat (length (InitNodesAddreses cc))) g in
    match index_string (InitNodesAddreses cc) i with
    | Panics => (Panics, g)
    | Returns addr =>
        let na := zero_NodeAddr in
        let na := LoadFromString addr na in
        (Returns (Some na), g)
    end.

(** ** Documents and configurations of the round trip *)

(** Two documents that parse, into a fresh configuration, to the same
    field values. *)
Definition same_document (doc doc' : bytes) : Prop :=
  ∃ config,
    json_Unmarshal doc zero_Config = inr config
    ∧ json_Unmarshal doc' zero_Config = inr config.

(** A configuration in which lines 80-96 of NewConfigFromFile find
    nothing to fill in: the reward is not zero, Kind is not empty, and
    proof-of-work settings are already the completed ones. *)
Definition defaults_filled config : Prop :=
  float64_is_zero (CoinsForBlockMade config) = false
  ∧ Kind config ≠ ""
  ∧ (Kind config = KindConseususPoW →
     structs_Map (completeSettings
       (mapstructure_Decode (Settings config) zero_ProofOfWorkSettings))
     = Settings config).

End Operations.

(** ** Configurations and documents of the round trip, again *)

Section Round_trip.

Context {any : Type} {ext : Externals any}.
Implicit Types c cfg config u : ConsensusConfig any.

(** The invariants of a configuration (section 3 of the specification):
    the reward is not zero, Kind is not empty, and with the
    proof-of-work Kind the settings are the map of completed settings.
    Both constructors return configurations that have them. *)
Definition configuration_invariant config : Prop :=
  float64_is_zero (CoinsForBlockMade config) = false
  ∧ Kind config ≠ ""
  ∧ (Kind config = KindConseususPoW →
     ∃ s, Settings config = structs_Map (completeSettings s)).

(** What the proof-of-work settings libraries do on a round trip: a
    settings struct comes back from its map, and completing completed
    settings changes nothing. *)
Definition settings_round_trip : Prop :=
  (∀ s, mapstructure_Decode (structs_Map s) zero_ProofOfWorkSettings = s)
  ∧ (∀ s, completeSettings (completeSettings s) = completeSettings s).

(** Configurations with the same field values in the eyes of
    encoding/json: a relation [same] between configurations is one when
    - it is an equivalence, and blind to the unexported state;
    - a document parses to a configuration that is the same as the one
      it was made of;
    - configurations that are the same give documents that parse to the
      same field values;
    - it respects what the operations of this file test (an empty address
      list, an empty name, a zero reward, an empty or proof-of-work Kind)
      and what they assign (the address list, the name, the completed
      settings). *)
Class JSON_same (same : ConsensusConfig any → ConsensusConfig any → Prop) : Prop := {
  same_equivalence : Equivalence same;
  same_state c st : same (set_state st c) c;
  same_Unmarshal c doc :
    json_Marshal c = inr doc →
    ∃ u, json_Unmarshal doc zero_Config = inr u ∧ same u c;
  same_Marshal c c' doc :
    same c c' → json_Marshal c = inr doc →
    ∃ doc', json_Marshal c' = inr doc' ∧ same_document doc doc';
  same_addresses_empty c c' :
    same c c' → InitNodesAddreses c = [] → InitNodesAddreses c' = [];
  same_name_empty c c' :
    same c c' → Name (Application c) = "" → Name (Application c') = "";
  same_reward_zero c c' :
    same c c' →
    float64_is_zero (CoinsForBlockMade c) = float64_is_zero (CoinsForBlockMade c');
  same_Kind_empty c c' : same c c' → Kind c = "" → Kind c' = "";
  same_Kind_PoW c c' :
    same c c' → Kind c = KindConseususPoW → Kind c' = KindConseususPoW;
  same_set_addresses c c' l :
    same c c' → same (set_InitNodesAddreses l c) (set_InitNodesAddreses l c');
  same_set_name c c' n :
    same c c' → same (set_Application_Name n c) (set_Application_Name n c');
  same_settings c c' :
    same c c' → same (complete_PoW_settings c) (complete_PoW_settings c')
}.

End Round_trip.

(** ** GetInfoForTransactions (lines 127-129) *)

(** [structures.ConsensusInfo], of this repository: the struct that
    GetInfoForTransactions fills with one value. *)
Record ConsensusInfo := mkConsensusInfo {
  Info_CoinsForBlockMade : float64
}.

(** Lines 127-129. *)
Definition GetInfoForTransactions {any} (cc : ConsensusConfig any) : ConsensusInfo :=
  mkConsensusInfo (CoinsForBlockMade cc).

(** ** Export in the words of the specification (section 4.3) *)

(** Steps 1 to 4: the override list replaces the existing list when it is
    not empty, and the self address stands in when the list is still
    empty. *)
Definition spec_address_list (existing : list string)
    (overrideAddresses selfAddress : string) : list string :=
  let overrides := spec_override_list overrideAddresses selfAddress in
  let addresses := if decide (overrides = []) then existing else overrides in
  if decide (addresses = [] ∧ selfAddress ≠ "") then [selfAddress] else addresses.

(** Step 6: the application name of the exported document. *)
Definition spec_application_name (existing appName : string) : string :=
  if decide (appName = "") then existing else appName.

(** The configuration with the address list and the name of steps 1 to
    6 in it. *)
Definition spec_exported {any} (cfg : ConsensusConfig any)
    (overrideAddresses appName selfAddress : string) : ConsensusConfig any :=
  set_Application_Name (spec_application_name (Name (Application cfg)) appName)
    (set_InitNodesAddreses
       (spec_address_list (InitNodesAddreses cfg) overrideAddresses selfAddress)
       cfg).

(** Steps 1 to 7: the configuration that is serialised, or the error. *)
Definition spec_Export_merge {any} (cfg : ConsensusConfig any)
    (overrideAddresses appName selfAddress : string) : result (ConsensusConfig any) :=
  let addresses :=
    spec_address_list (InitNodesAddreses cfg) overrideAddresses selfAddress in
  let name := spec_application_name (Name (Application cfg)) appName in
  if decide (addresses = []) then Err ErrAddressesEmpty
  else if decide (name = "") then Err ErrAppNameEmpty
  else Ok (spec_exported cfg overrideAddresses appName selfAddress).

(** ** The memory view of Export *)

(** [Export] has a value receiver: the call copies the caller's struct,
    and the copy shares the map and the backing arrays of the slices with
    it.  This module models that memory, so that what the body writes,
    and where, can be stated. *)
Module Mem.

Definition loc := positive.

(** A slice header; [None] is the nil slice. *)
Record header := mkHeader {
  s_ptr : loc;
  s_off : nat;
  s_len : nat;
  s_cap : nat
}.
Definition slice := option header.

Definition len (s : slice) : nat :=
  match s with
  | None => 0
  | Some hd => s_len hd
  end.

(** A [ConsensusConfig] in memory: the map is a reference ([None] for the
    nil map) and the three slices are headers. *)
Record MemConfig := mkMemConfig {
  m_Application : ConsensusConfigApplication;
  m_Kind : string;
  m_CoinsForBlockMade : float64;
  m_Settings : option loc;
  m_AllowTableCreate : bool;
  m_AllowTableDrop : bool;
  m_AllowRowDelete : bool;
  m_TransactionCost : ConsensusConfigCost;
  m_UnmanagedTables : slice;
  m_TableRules : slice;
  m_InitNodesAddreses : slice;
  m_state : consensusConfigState
}.

Definition set_m_InitNodesAddreses (s : slice) (c : MemConfig) : MemConfig :=
  mkMemConfig (m_Application c) (m_Kind c) (m_CoinsForBlockMade c) (m_Settings c)
    (m_AllowTableCreate c) (m_AllowTableDrop c) (m_AllowRowDelete c)
    (m_TransactionCost c) (m_UnmanagedTables c) (m_TableRules c) s (m_state c).

Definition set_m_Application_Name (n : string) (c : MemConfig) : MemConfig :=
  mkMemConfig (mkApplication n (WebSite (m_Application c)) (Team (m_Application c)))
    (m_Kind c) (m_CoinsForBlockMade c) (m_Settings c)
    (m_AllowTableCreate c) (m_AllowTableDrop c) (m_AllowRowDelete c)
    (m_TransactionCost c) (m_UnmanagedTables c) (m_TableRules c)
    (m_InitNodesAddreses c) (m_state c).

Definition set_m_state (st : consensusConfigState) (c : MemConfig) : MemConfig :=
  mkMemConfig (m_Application c) (m_Kind c) (m_CoinsForBlockMade c) (m_Settings c)
    (m_AllowTableCreate c) (m_AllowTableDrop c) (m_AllowRowDelete c)
    (m_TransactionCost c) (m_UnmanagedTables c) (m_TableRules c)
    (m_InitNodesAddreses c) st.

Section Heap.

Context {any : Type}.

(** What a location holds: a configuration variable, the backing array
    of a slice (as long as its capacity), or a map. *)
Inductive cell : Type :=
  | CStruct (c : MemConfig)
  | CStrings (arr : list string)
  | CTables (arr : list ConsensusConfigTable)
  | CMap (m : gmap string any).

Abbreviation Heap := (gmap loc cell).

(** Computations on the heap; [None] is a memory fault, which Go's types
    rule out. *)
Definition M (A : Type) : Type := Heap → option (A * Heap).

#[global] Instance M_ret : MRet M := λ A a h, Some (a, h).
#[global] Instance M_bind : MBind M := λ A B k m h,
  match m h with
  | Some (a, h') => k a h'
  | None => None
  end.

Definition alloc (c : cell) : M loc := λ h,
  let l := fresh (dom h) in Some (l, <[l := c]> h).

Definition load_struct (p : loc) : M MemConfig := λ h,
  match h !! p with
  | Some (CStruct c) => Some (c, h)
  | _ => None
  end.

Definition store_struct (p : loc) (c : MemConfig) : M unit := λ h,
  match h !! p with
  | Some (CStruct _) => Some ((), <[p := CStruct c]> h)
  | _ => None
  end.

Definition load_strings (p : loc) : M (list string) := λ h,
  match h !! p with
  | Some (CStrings arr) => Some (arr, h)
  | _ => None
  end.

Definition store_strings (p : loc) (arr : list string) : M unit := λ h,
  match h !! p with
  | Some (CStrings _) => Some ((), <[p := CStrings arr]> h)
  | _ => None
  end.

(** The elements a header selects in its array. *)
Definition window {A} (hd : header) (arr : list A) : option (list A) :=
  if decide (s_len hd ≤ s_cap hd ∧ s_off hd + s_cap hd ≤ length arr)
  then Some (take (s_len hd) (drop (s_off hd) arr)) else None.

Definition read_strings (h : Heap) (s : slice) : option (list string) :=
  match s with
  | None => Some []
  | Some hd =>
      match h !! s_ptr hd with
      | Some (CStrings arr) => window hd arr
      | _ => None
      end
  end.

Definition read_tables (h : Heap) (s : slice) : option (list ConsensusConfigTable) :=
  match s with
  | None => Some []
  | Some hd =>
      match h !! s_ptr hd with
      | Some (CTables arr) => window hd arr
      | _ => None
      end
  end.

Definition read_map (h : Heap) (r : option loc) : option (gmap string any) :=
  match r with
  | None => Some ∅
  | Some p =>
      match h !! p with
      | Some (CMap m) => Some m
      | _ => None
      end
  end.

(** The value of a configuration in memory. *)
Definition read_config (h : Heap) (c : MemConfig) : option (ConsensusConfig any) :=
  settings ← read_map h (m_Settings c);
  unmanaged ← read_strings h (m_UnmanagedTables c);
  rules ← read_tables h (m_TableRules c);
  addresses ← read_strings h (m_InitNodesAddreses c);
  Some (mkConfig (m_Application c) (m_Kind c) (m_CoinsForBlockMade c) settings
          (m_AllowTableCreate c) (m_AllowTableDrop c) (m_AllowRowDelete c)
          (m_TransactionCost c) unmanaged rules addresses (m_state c)).

Definition get_config (c : MemConfig) : M (ConsensusConfig any) := λ h,
  match read_config h c with
  | Some v => Some (v, h)
  | None => None
  end.

(** The local slice [addresses] of Export: it holds [l] in an array of
    its own, one that the heap [h0] of the caller does not have, and the
    heap [h] still has all of [h0]. *)
Definition own_slice (h0 h : Heap) (s : slice) (l : list string) : Prop :=
  ∃ p arr,
    s = Some (mkHeader p 0 (length l) (length arr))
    ∧ h !! p = Some (CStrings arr)
    ∧ take (length l) arr = l
    ∧ h0 !! p = None
    ∧ h0 ⊆ h.

(** The capacity the runtime gives an array that has to grow, from the
    old capacity. *)
Variable growslice : nat → nat.

(** [[]string{x1, ..., xn}] *)
Definition make_strings (l : list string) : M slice :=
  p ← alloc (CStrings l);
  mret (Some (mkHeader p 0 (length l) (length l))).

(** [append(s, x)]: in place when the capacity allows, else into a new
    array. *)
Definition append_string (s : slice) (x : string) : M slice :=
  match s with
  | Some hd =>
      arr ← load_strings (s_ptr hd);
      if decide (s_len hd < s_cap hd) then
        _ ← store_strings (s_ptr hd) (<[s_off hd + s_len hd := x]> arr);
        mret (Some (mkHeader (s_ptr hd) (s_off hd) (S (s_len hd)) (s_cap hd)))
      else
        let elems := take (s_len hd) (drop (s_off hd) arr) in
        let newcap := S (s_len hd) `max` growslice (s_cap hd) in
        p ← alloc (CStrings (elems ++ [x] ++ replicate (newcap - S (s_len hd)) ""));
        mret (Some (mkHeader p 0 (S (s_len hd)) newcap))
  | None =>
      let newcap := 1 `max` growslice 0 in
      p ← alloc (CStrings ([x] ++ replicate (newcap - 1) ""));
      mret (Some (mkHeader p 0 1 newcap))
  end.

(** [for _, a := range list { addresses = body(addresses, a) }] *)
Fixpoint range_loop (body : slice → string → M slice)
    (addresses : slice) (list : list string) : M slice :=
  match list with
  | [] => mret addresses
  | a :: list => addresses ← body addresses a; range_loop body addresses list
  end.

Context {ext : Externals any}.

(** Lines 146-164. *)
Definition Export_loop_body (thisnodeaddr : string)
    (addresses : slice) (a : string) : M slice :=
  if decide (a = "") then mret addresses
  else if decide (a = "own") then
    if decide (thisnodeaddr ≠ "") then append_string addresses thisnodeaddr
    else mret addresses
  else append_string addresses a.

Definition Export_addresses (defaultaddresses thisnodeaddr : string) : M slice :=
  addresses ← make_strings [];
  if decide (defaultaddresses ≠ "") then
    range_loop (Export_loop_body thisnodeaddr) addresses
      (strings_Split defaultaddresses ","%char)
  else mret addresses.

(** Lines 166-172, on the receiver copy. *)
Definition Export_merge_addresses (cc : MemConfig)
    (defaultaddresses thisnodeaddr : string) : M MemConfig :=
  addresses ← Export_addresses defaultaddresses thisnodeaddr;
  let cc := if decide (0 < len addresses)
            then set_m_InitNodesAddreses addresses cc else cc in
  if decide (len (m_InitNodesAddreses cc) = 0 ∧ thisnodeaddr ≠ "") then
    s ← make_strings [thisnodeaddr];
    mret (set_m_InitNodesAddreses s cc)
  else mret cc.

(** Lines 145-191, called on the configuration at [p]: the receiver [cc]
    is a copy of the struct there. *)
Definition Export (p : loc)
    (defaultaddresses appname thisnodeaddr : string) : M (result bytes) :=
  cc ← load_struct p;
  cc ← Export_merge_addresses cc defaultaddresses thisnodeaddr;
  if decide (len (m_InitNodesAddreses cc) = 0) then mret (Err ErrAddressesEmpty)
  else
    let cc := if decide (appname ≠ "")
              then set_m_Application_Name appname cc else cc in
    if decide (Name (m_Application cc) = "") then mret (Err ErrAppNameEmpty)
    else
      v ← get_config cc;
      mret (Marshal v).

(** Lines 214-216: the pointer receiver writes the caller's struct. *)
Definition SetConfigFilePath (p : loc) (fp : string) : M unit :=
  cc ← load_struct p;
  store_struct p (set_m_state (mkState (isDefault (m_state cc)) fp) cc).

End Heap.

Arguments cell any : clear implicits.
Abbreviation Heap any := (gmap loc (cell any)).

End Mem.

(** ** An executable instance of the externals *)

(** Small stand-ins for the libraries, to run the operations on concrete
    inputs: settings values are integers, the proof-of-work settings are
    one number that defaults to 16, a file system is a map from paths to
    contents that refuses the empty path, the generator is a linear
    congruential one, and a document is the list of the binary digits of
    a number that codes the exported fields.  As encoding/json does, the
    codec skips the unexported [state] and refuses NaN and the
    infinities. *)
Module Reference.

Definition float_code : Type := bool + bool + unit + bool * positive * Z.

Definition float_encode (x : float64) : float_code :=
  match Prim2SF x with
  | S754_zero s => inl (inl (inl s))
  | S754_infinity s => inl (inl (inr s))
  | S754_nan => inl (inr ())
  | S754_finite s m e => inr (s, m, e)
  end.

Definition float_decode (r : float_code) : float64 :=
  SF2Prim
    match r with
    | inl (inl (inl s)) => S754_zero s
    | inl (inl (inr s)) => S754_infinity s
    | inl (inr _) => S754_nan
    | inr (s, m, e) => S754_finite s m e
    end.

Definition cost_encode (c : ConsensusConfigCost) : list float_code :=
  float_encode <$> [Default c; RowDelete c; RowUpdate c; RowInsert c; TableCreate c].

Definition cost_decode (r : list float_code) : option ConsensusConfigCost :=
  match float_decode <$> r with
  | [a; b; c; d; e] => Some (mkCost a b c d e)
  | _ => None
  end.

Definition table_code : Type := string * list bool * list float_code.

Definition table_encode (t : ConsensusConfigTable) : table_code :=
  (Table t,
   [Table_AllowRowDelete t; Table_AllowRowUpdate t; Table_AllowRowInsert t;
    Table_AllowTableCreate t],
   cost_encode (Table_TransactionCost t)).

Definition table_decode (r : table_code) : option ConsensusConfigTable :=
  match r with
  | (n, [a; b; c; d], k) => mkTable n a b c d <$> cost_decode k
  | _ => None
  end.

(** The exported fields, one number each, in the order of the struct. *)
Definition config_encode (c : ConsensusConfig Z) : list positive :=
  [ encode (Name (Application c)); encode (WebSite (Application c));
    encode (Team (Application c)); encode (Kind c);
    encode (float_encode (CoinsForBlockMade c));
    encode (map_to_list (Settings c));
    encode [AllowTableCreate c; AllowTableDrop c; AllowRowDelete c];
    encode (cost_encode (TransactionCost c));
    encode (UnmanagedTables c);
    encode (table_encode <$> TableRules c);
    encode (InitNodesAddreses c) ].

Definition config_decode (r : list positive) (st : consensusConfigState)
    : option (ConsensusConfig Z) :=
  match r with
  | [n; w; t; k; coins; settings; flags; cost; um; rules; addrs] =>
      n ← decode n; w ← decode w; t ← decode t; k ← decode k;
      coins ← decode coins;
      settings ← decode (A := list (string * Z)) settings;
      flags ← decode flags;
      cost ← decode cost ≫= cost_decode;
      um ← decode um;
      rules ← decode rules ≫= mapM table_decode;
      addrs ← decode addrs;
      match flags with
      | [f1; f2; f3] =>
          Some (mkConfig (mkApplication n w t) k (float_decode coins)
                  (list_to_map settings) f1 f2 f3 cost um rules addrs st)
      | _ => None
      end
  | _ => None
  end.

Fixpoint digits (p : positive) : bytes :=
  match p with
  | xH => []
  | xO q => Byte.x30 :: digits q
  | xI q => Byte.x31 :: digits q
  end.

Fixpoint undigits (d : bytes) : option positive :=
  match d with
  | [] => Some xH
  | Byte.x30 :: d => xO <$> undigits d
  | Byte.x31 :: d => xI <$> undigits d
  | _ => None
  end.

Definition float_supported (x : float64) : bool :=
  negb (PrimFloat.is_nan x || PrimFloat.is_infinity x).

Definition cost_supported (c : ConsensusConfigCost) : bool :=
  float_supported (Default c) && float_supported (RowDelete c)
  && float_supported (RowUpdate c) && float_supported (RowInsert c)
  && float_supported (TableCreate c).

Definition Marshal (c : ConsensusConfig Z) : string + bytes :=
  if float_supported (CoinsForBlockMade c) && cost_supported (TransactionCost c)
     && forallb (λ t, cost_supported (Table_TransactionCost t)) (TableRules c)
  then inr (digits (encode (config_encode c)))
  else inl "json: unsupported value".

Definition Unmarshal (data : bytes) (config : ConsensusConfig Z)
    : string + ConsensusConfig Z :=
  let parsed : option (ConsensusConfig Z) :=
    p ← undigits data; r ← decode p; config_decode r (state config) in
  match parsed with
  | Some config => inr config
  | None => inl "invalid character"
  end.

Definition ReadFile (filepath : string) (fs : gmap string bytes) : string + bytes :=
  match fs !! filepath with
  | Some data => inr data
  | None => inl "no such file or directory"
  end.

(** A path that ends in a slash names a directory. *)
Fixpoint is_directory_path (filepath : string) : bool :=
  match filepath with
  | EmptyString => false
  | String c EmptyString => bool_decide (c = "/"%char)
  | String _ rest => is_directory_path rest
  end.

Definition WriteFile (filepath : string) (data : bytes) (perm : Z)
    (fs : gmap string bytes) : gmap string bytes * option string :=
  if decide (filepath = "") then (fs, Some "no such file or directory")
  else if is_directory_path filepath then (fs, Some "is a directory")
  else (<[filepath := data]> fs, None).

Definition complete (s : Z) : Z := if decide (s = 0%Z) then 16%Z else s.
Definition Decode (m : gmap string Z) (s : Z) : Z := default s (m !! "Difficulty").
Definition Map (s : Z) : gmap string Z := {[ "Difficulty" := s ]}.

Definition Seed (seed : Z) (g : Z) : Z := seed.
Definition Intn (n : Z) (g : Z) : Z * Z :=
  ((g `mod` n)%Z, ((g * 6364136223846793005 + 1442695040888963407) `mod` 2 ^ 64)%Z).

#[global] Instance externals : Externals Z := {|
  json_Marshal := Marshal;
  json_Unmarshal := Unmarshal;
  FS := gmap string bytes;
  ioutil_ReadFile := ReadFile;
  ioutil_WriteFile := WriteFile;
  ProofOfWorkSettings := Z;
  zero_ProofOfWorkSettings := 0%Z;
  completeSettings := complete;
  mapstructure_Decode := Decode;
  structs_Map := Map;
  Rng := Z;
  rand_Seed := Seed;
  rand_Intn := Intn;
  NodeAddr := string;
  zero_NodeAddr := "";
  LoadFromString := λ addr _, addr
|}.

(** A configuration as [NewConfigDefault] builds it, with a name and two
    bootstrap addresses. *)
Definition sample : ConsensusConfig Z :=
  mkConfig (mkApplication "MyChain" "" "") KindConseususPoW 10%float (Map 16)
    true true true zero_Cost [] [] ["192.0.2.1:9000"; "192.0.2.2:9000"]
    (mkState true "").

(** The document Export makes of it, and a file system with that
    document in a file. *)
Definition sample_doc : bytes :=
  Eval vm_compute in
    match Export sample "" "" "" with Ok doc => doc | Err _ => [] end.

Definition sample_fs : gmap string bytes := {[ "consensus.json" := sample_doc ]}.

(** A configuration that was never loaded nor built by NewConfigDefault:
    no Kind, no reward, no settings. *)
Definition bare : ConsensusConfig Z :=
  mkConfig (mkApplication "MyChain" "" "") "" 0%float ∅
    false false false zero_Cost [] [] ["192.0.2.1:9000"] zero_State.

Definition bare_doc : bytes :=
  Eval vm_compute in
    match Export bare "" "" "" with Ok doc => doc | Err _ => [] end.

Definition bare_fs : gmap string bytes := {[ "consensus.json" := bare_doc ]}.

(** The sample in memory: the struct at 1, the array of its addresses,
    with room for one more, at 2, and its settings at 3. *)
Definition sample_mem : Mem.MemConfig :=
  Mem.mkMemConfig (mkApplication "MyChain" "" "") KindConseususPoW 10%float
    (Some 3%positive) true true true zero_Cost None None
    (Some (Mem.mkHeader 2%positive 0 2 3)) (mkState true "").

Definition sample_heap : gmap Mem.loc (Mem.cell Z) :=
  {[ 1%positive := Mem.CStruct sample_mem;
     2%positive := Mem.CStrings ["192.0.2.1:9000"; "192.0.2.2:9000"; ""];
     3%positive := Mem.CMap (Map 16) ]}.

Definition double (cap : nat) : nat := 2 * cap.

(** On this instance, configurations have the same field values when
    their exported fields are equal. *)
Definition same (c c' : ConsensusConfig Z) : Prop :=
  set_state zero_State c = set_state zero_State c'.

End Reference.

(** * Properties *)

Example strings_Split_two : strings_Split "a,b" ","%char = ["a"; "b"].
Proof. reflexivity. Qed.
Example strings_Split_gaps : strings_Split ",a,,b," ","%char = [""; "a"; ""; "b"; ""].
Proof. reflexivity. Qed.

Section Export_properties.

Context {any : Type} {ext : Externals any}.
Implicit Types cc cfg : ConsensusConfig any.

Lemma set_InitNodesAddreses_id cc :
  set_InitNodesAddreses (InitNodesAddreses cc) cc = cc.
Proof. by destruct cc. Qed.

Lemma set_Application_Name_id cc :
  set_Application_Name (Name (Application cc)) cc = cc.
Proof. by destruct cc as [[] ?]. Qed.

Lemma Export_loop_body_spec thisnodeaddr addresses a :
  Export_loop_body thisnodeaddr addresses a =
  addresses ++ option_list (spec_resolve_entry thisnodeaddr a).
Proof.
  unfold Export_loop_body, spec_resolve_entry.
  repeat case_decide; simpl; try done; by rewrite ?app_nil_r.
Qed.

Lemma Export_loop_spec thisnodeaddr list addresses :
  foldl (Export_loop_body thisnodeaddr) addresses list =
  addresses ++ omap (spec_resolve_entry thisnodeaddr) list.
Proof.
  revert addresses.
  induction list as [|a list IH]; intros addresses; simpl.
  - by rewrite app_nil_r.
  - rewrite IH, Export_loop_body_spec.
    destruct (spec_resolve_entry thisnodeaddr a); simpl.
    + by rewrite <- app_assoc.
    + by rewrite app_nil_r.
Qed.

Lemma Export_addresses_spec defaultaddresses thisnodeaddr :
  Export_addresses defaultaddresses thisnodeaddr =
  spec_override_list defaultaddresses thisnodeaddr.
Proof.
  unfold Export_addresses, spec_override_list.
  case_decide as Hne.
  - apply Export_loop_spec.
  - by subst.
Qed.

Lemma Export_merge_addresses_spec cc defaultaddresses thisnodeaddr :
  Export_merge_addresses cc defaultaddresses thisnodeaddr =
  set_InitNodesAddreses
    (spec_address_list (InitNodesAddreses cc) defaultaddresses thisnodeaddr) cc.
Proof.
  unfold Export_merge_addresses, spec_address_list.
  rewrite Export_addresses_spec.
  destruct (spec_override_list defaultaddresses thisnodeaddr) as [|a l];
    destruct cc as [? ? ? ? ? ? ? ? ? ? [|b k] ?]; simpl;
    repeat (case_decide; simpl in *); try done; try lia; intuition congruence.
Qed.

Lemma Export_merge_spec cc defaultaddresses appname thisnodeaddr :
  Export_merge cc defaultaddresses appname thisnodeaddr =
  spec_Export_merge cc defaultaddresses appname thisnodeaddr.
Proof.
  unfold Export_merge, spec_Export_merge, spec_exported, spec_application_name.
  rewrite Export_merge_addresses_spec.
  destruct (spec_address_list _ _ _) as [|a l];
    destruct cc as [[name ? ?] ? ? ? ? ? ? ? ? ? ? ?]; simpl;
    repeat (case_decide; simpl in *); try done; intuition congruence.
Qed.

Lemma Export_spec cc defaultaddresses appname thisnodeaddr :
  Export cc defaultaddresses appname thisnodeaddr =
  match spec_Export_merge cc defaultaddresses appname thisnodeaddr with
  | Ok cc => Marshal cc
  | Err e => Err e
  end.
Proof. unfold Export. by rewrite Export_merge_spec. Qed.

Lemma Marshal_not_errors_New cc text : Marshal cc ≠ Err (errors_New text).
Proof. unfold Marshal. by destruct (json_Marshal cc). Qed.

(** C1. Export reads the override string as the specification words it:
    the entries between commas, without the empty ones, each ["own"]
    replaced by the self address or dropped when there is none; a
    non-empty override list replaces the configuration's list, and a list
    that is still empty becomes the self address alone when there is one.
    That list is the one in the document Export serialises.  On the
    example of the specification the list is the self address followed by
    192.0.2.1:9000, and with the name MyChain the document is the one of
    the configuration with these two addresses. *)
Theorem Export_address_list cc overrideAddresses appName selfAddress :
  Export_addresses overrideAddresses selfAddress
    = spec_override_list overrideAddresses selfAddress
  ∧ InitNodesAddreses (Export_merge_addresses cc overrideAddresses selfAddress)
    = spec_address_list (InitNodesAddreses cc) overrideAddresses selfAddress
  ∧ match Export_merge cc overrideAddresses appName selfAddress with
    | Ok exported =>
        InitNodesAddreses exported
          = spec_address_list (InitNodesAddreses cc) overrideAddresses selfAddress
        ∧ Export cc overrideAddresses appName selfAddress = Marshal exported
    | Err e => Export cc overrideAddresses appName selfAddress = Err e
    end
  ∧ InitNodesAddreses
      (Export_merge_addresses (set_InitNodesAddreses [] cc)
         "own,192.0.2.1:9000" "203.0.113.5:9000")
    = ["203.0.113.5:9000"; "192.0.2.1:9000"]
  ∧ Export (set_Application_Name "MyChain" (set_InitNodesAddreses [] cc))
      "own,192.0.2.1:9000" "" "203.0.113.5:9000"
    = Marshal (set_Application_Name "MyChain"
                 (set_InitNodesAddreses ["203.0.113.5:9000"; "192.0.2.1:9000"] cc)).
Proof.
  split_and!.
  - apply Export_addresses_spec.
  - by rewrite Export_merge_addresses_spec.
  - unfold Export. rewrite Export_merge_spec. unfold spec_Export_merge.
    repeat case_decide; done.
  - by destruct cc.
  - by destruct cc as [[] ?].
Qed.

(** C2, amended. Export returns the error of the empty address list (a
    validation error, whose text is "List of default addresses is
    empty"), and so no document, exactly when the list that results from
    the overrides, the ["own"] substitution and the self-address fallback
    is empty; any other validation error it returns comes with a list
    that is not empty.  With no overrides, no existing address and no
    self address it fails so. *)
Theorem Export_fails_without_addresses cc overrideAddresses appName selfAddress :
  (Export cc overrideAddresses appName selfAddress = Err ErrAddressesEmpty
   ↔ spec_address_list (InitNodesAddreses cc) overrideAddresses selfAddress = [])
  ∧ (spec_address_list (InitNodesAddreses cc) overrideAddresses selfAddress = [] →
     ∀ doc, Export cc overrideAddresses appName selfAddress ≠ Ok doc)
  ∧ (∀ e, ValidationError e →
       Export cc overrideAddresses appName selfAddress = Err e →
       (e = ErrAddressesEmpty
        ↔ spec_address_list (InitNodesAddreses cc) overrideAddresses selfAddress = []))
  ∧ ValidationError ErrAddressesEmpty
  ∧ ErrAddressesEmpty = errors_New "List of default addresses is empty"
  ∧ Export (set_InitNodesAddreses [] cc) "" appName "" = Err ErrAddressesEmpty.
Proof.
  assert (Hiff :
    Export cc overrideAddresses appName selfAddress = Err ErrAddressesEmpty
    ↔ spec_address_list (InitNodesAddreses cc) overrideAddresses selfAddress = []).
  { rewrite Export_spec. unfold spec_Export_merge.
    repeat case_decide; split; try done.
    intros Hm. by apply Marshal_not_errors_New in Hm. }
  split_and!.
  - done.
  - intros Hempty doc. apply Hiff in Hempty. by rewrite Hempty.
  - intros e _ He. split.
    + intros ->. by apply Hiff.
    + intros Hempty. apply Hiff in Hempty. congruence.
  - by left.
  - done.
  - by destruct cc.
Qed.

Lemma WriteFile_not_errors_New filepath data perm (fs : FS) text :
  (WriteFile filepath data perm fs).1 ≠ Err (errors_New text).
Proof.
  unfold WriteFile.
  by destruct (ioutil_WriteFile filepath data perm fs) as [? []].
Qed.

Lemma NewConfigFromFile_not_errors_New filepath (fs : FS) text :
  (NewConfigFromFile filepath fs).1 ≠ Err (errors_New text).
Proof.
  unfold NewConfigFromFile, mbind, IO_bind, ReadFile, io_lift, Unmarshal.
  destruct (ioutil_ReadFile filepath fs) as [?|data]; [done|].
  by destruct (json_Unmarshal data zero_Config).
Qed.

Lemma ExportToFile_errors_New cc filepath defaultaddresses appname thisnodeaddr
    (fs : FS) text :
  (ExportToFile cc filepath defaultaddresses appname thisnodeaddr fs).1
    = Err (errors_New text)
  ↔ Export cc defaultaddresses appname thisnodeaddr = Err (errors_New text).
Proof.
  unfold ExportToFile, mbind, IO_bind, io_lift.
  destruct (Export cc defaultaddresses appname thisnodeaddr) as [jsondata|e];
    simpl.
  - split; [|done]. intros Hw. by apply WriteFile_not_errors_New in Hw.
  - split; intros [= ->]; done.
Qed.

(** C3, amended. A non-empty [appName] is the application name of the
    exported document, and an empty one leaves the configuration's name.
    Export returns the error of the empty application name (a validation error,
    whose text is "Application name is empty. It is required") exactly
    when the address list is not empty and the resulting name is empty:
    the name is checked after the address list.  A validation error
    comes out of Export for these two conditions only, and out of no
    other operation, ExportToFile passing on the one of Export. *)
Theorem Export_application_name cc overrideAddresses appName selfAddress :
  let addresses :=
    spec_address_list (InitNodesAddreses cc) overrideAddresses selfAddress in
  let name := spec_application_name (Name (Application cc)) appName in
  match Export_merge cc overrideAddresses appName selfAddress with
  | Ok exported =>
      Name (Application exported) = name
      ∧ (appName ≠ "" → Name (Application exported) = appName)
      ∧ Export cc overrideAddresses appName selfAddress = Marshal exported
  | Err e => ValidationError e
  end
  ∧ (Export cc overrideAddresses appName selfAddress = Err ErrAppNameEmpty
     ↔ addresses ≠ [] ∧ name = "")
  ∧ ErrAppNameEmpty = errors_New "Application name is empty. It is required"
  ∧ (∀ e, ValidationError e →
       (Export cc overrideAddresses appName selfAddress = Err e
        ↔ (e = ErrAddressesEmpty ∧ addresses = [])
          ∨ (e = ErrAppNameEmpty ∧ addresses ≠ [] ∧ name = "")))
  ∧ (∀ e filepath jsondoc (fs : FS), ValidationError e →
       (NewConfigFromFile filepath fs).1 ≠ Err e
       ∧ (NewConfigDefault fs).1 ≠ Err e
       ∧ (UpdateConfig cc jsondoc fs).1 ≠ Err e
       ∧ ((ExportToFile cc filepath overrideAddresses appName selfAddress fs).1 = Err e
          ↔ Export cc overrideAddresses appName selfAddress = Err e)).
Proof.
  intros addresses name.
  assert (Hexp : ∀ text,
    Export cc overrideAddresses appName selfAddress = Err (errors_New text)
    ↔ (errors_New text = ErrAddressesEmpty ∧ addresses = [])
      ∨ (errors_New text = ErrAppNameEmpty ∧ addresses ≠ [] ∧ name = "")).
  { intros text. rewrite Export_spec. unfold spec_Export_merge.
    fold addresses name.
    repeat case_decide; split; try done; try (intuition congruence).
    intros Hm. by apply Marshal_not_errors_New in Hm. }
  split_and!.
  - unfold Export. rewrite Export_merge_spec.
    unfold spec_Export_merge, spec_exported.
    fold addresses name. subst name. unfold spec_application_name.
    repeat case_decide; simpl; unfold ValidationError; try done; auto.
  - split.
    + intros Hx. apply Hexp in Hx as [[? _]|[_ ?]]; done.
    + intros ?. apply Hexp. by right.
  - done.
  - intros e [->| ->]; apply Hexp.
  - intros e filepath jsondoc fs [->| ->].
    all: split_and!;
      [ apply NewConfigFromFile_not_errors_New
      | done
      | unfold UpdateConfig; case_decide; [done|apply WriteFile_not_errors_New]
      | apply ExportToFile_errors_New ].
Qed.

End Export_properties.

Section Lifecycle_properties.

Context {any : Type} {ext : Externals any}.
Implicit Types cc cfg config : ConsensusConfig any.

Lemma NewConfigFromFile_parsed filepath (fs : FS) data parsed :
  ioutil_ReadFile filepath fs = inr data →
  json_Unmarshal data zero_Config = inr parsed →
  NewConfigFromFile filepath fs
  = (Ok (set_filePath filepath (set_isDefault false (fill_defaults parsed))), fs).
Proof.
  intros Hread Hparse.
  unfold NewConfigFromFile, mbind, IO_bind, ReadFile, io_lift, Unmarshal.
  by rewrite Hread, Hparse.
Qed.

Lemma NewConfigFromFile_fs filepath (fs : FS) :
  (NewConfigFromFile filepath fs).2 = fs.
Proof.
  unfold NewConfigFromFile, mbind, IO_bind, ReadFile, io_lift, Unmarshal.
  destruct (ioutil_ReadFile filepath fs) as [?|data]; [done|].
  by destruct (json_Unmarshal data zero_Config).
Qed.

(** C4. When the file is read and its bytes parse, NewConfigFromFile
    returns a configuration in which a zero block reward has become 10,
    an empty Kind has become the proof-of-work one, and, when Kind is the
    proof-of-work one, Settings is the map of the completed settings
    decoded from the parsed map; a non-zero reward, a non-empty Kind and
    the settings of another Kind are kept, and so is every other exported
    field.  The state says not default, with the path of the file.  The
    file system is the one the call started from. *)
Theorem NewConfigFromFile_defaults filepath (fs : FS) data parsed :
  ioutil_ReadFile filepath fs = inr data →
  json_Unmarshal data zero_Config = inr parsed →
  ∃ config,
    NewConfigFromFile filepath fs = (Ok config, fs)
    ∧ CoinsForBlockMade config
      = (if float64_is_zero (CoinsForBlockMade parsed)
         then 10%float else CoinsForBlockMade parsed)
    ∧ Kind config
      = (if decide (Kind parsed = "") then KindConseususPoW else Kind parsed)
    ∧ Settings config
      = (if decide (Kind config = KindConseususPoW)
         then structs_Map (completeSettings
                (mapstructure_Decode (Settings parsed) zero_ProofOfWorkSettings))
         else Settings parsed)
    ∧ isDefault (state config) = false
    ∧ filePath (state config) = filepath
    ∧ IsDefault config = false
    ∧ Application config = Application parsed
    ∧ (AllowTableCreate config, AllowTableDrop config, AllowRowDelete config)
      = (AllowTableCreate parsed, AllowTableDrop parsed, AllowRowDelete parsed)
    ∧ TransactionCost config = TransactionCost parsed
    ∧ UnmanagedTables config = UnmanagedTables parsed
    ∧ TableRules config = TableRules parsed
    ∧ InitNodesAddreses config = InitNodesAddreses parsed.
Proof.
  intros Hread Hparse. eexists. split.
  { eapply NewConfigFromFile_parsed; eassumption. }
  unfold fill_defaults, complete_PoW_settings.
  destruct parsed; simpl.
  destruct (float64_is_zero _); repeat (case_decide; simpl in * ); done.
Qed.

(** C5. NewConfigDefault returns, without an error and on the file system
    it started from, the configuration of the proof-of-work kind with
    reward 10, the three permission flags set, no table rule, no
    unmanaged table, no bootstrap address, the map of the completed
    empty settings, and the state default with no file path. *)
Theorem NewConfigDefault_fields (fs : FS) :
  ∃ c,
    NewConfigDefault fs = (Ok c, fs)
    ∧ Kind c = KindConseususPoW
    ∧ CoinsForBlockMade c = 10%float
    ∧ AllowTableCreate c = true
    ∧ AllowTableDrop c = true
    ∧ AllowRowDelete c = true
    ∧ TableRules c = []
    ∧ UnmanagedTables c = []
    ∧ InitNodesAddreses c = []
    ∧ Settings c = structs_Map (completeSettings zero_ProofOfWorkSettings)
    ∧ isDefault (state c) = true
    ∧ filePath (state c) = ""
    ∧ IsDefault c = true
    ∧ Application c = zero_Application
    ∧ TransactionCost c = zero_Cost.
Proof. eexists. split_and!; reflexivity. Qed.

Lemma index_string_range (l : list string) (i : Z) :
  (0 ≤ i < Z.of_nat (length l))%Z →
  ∃ a, index_string l i = Returns a ∧ a ∈ l.
Proof.
  intros Hi. unfold index_string. rewrite decide_True by done.
  destruct (l !! Z.to_nat i) as [a|] eqn:Hl.
  - exists a. split; [done|]. by eapply list_elem_of_lookup_2.
  - apply lookup_ge_None in Hl. lia.
Qed.

(** C8. GetRandomInitialAddress returns nil exactly when the address list
    is empty.  With [rand.Intn(n)] in the range from 0 to n - 1, as the
    library documents it, the call on a non-empty list returns a node
    address loaded from an element of the list, and on a list of one
    element from that element. *)
Theorem GetRandomInitialAddress_picks cc now (g : Rng) :
  (∀ n g, (0 < n)%Z → (0 ≤ (rand_Intn n g).1 < n)%Z) →
  ((GetRandomInitialAddress cc now g).1 = Returns None
   ↔ InitNodesAddreses cc = [])
  ∧ (InitNodesAddreses cc ≠ [] →
     ∃ addr, addr ∈ InitNodesAddreses cc
       ∧ (GetRandomInitialAddress cc now g).1
         = Returns (Some (LoadFromString addr zero_NodeAddr)))
  ∧ (∀ addr, InitNodesAddreses cc = [addr] →
     (GetRandomInitialAddress cc now g).1
     = Returns (Some (LoadFromString addr zero_NodeAddr))).
Proof.
  intros Hrange.
  assert (Hpick : InitNodesAddreses cc ≠ [] →
     ∃ addr, addr ∈ InitNodesAddreses cc
       ∧ (GetRandomInitialAddress cc now g).1
         = Returns (Some (LoadFromString addr zero_NodeAddr))).
  { intros Hne. unfold GetRandomInitialAddress.
    destruct (InitNodesAddreses cc) as [|a l] eqn:Hl; [done|].
    rewrite decide_False by done.
    specialize (Hrange (Z.of_nat (length (a :: l))) (rand_Seed now g)).
    destruct (rand_Intn _ _) as [i g'].
    destruct (index_string_range (a :: l) i) as (addr & Hidx & Hin).
    { apply Hrange. simpl. lia. }
    rewrite Hidx. by exists addr. }
  split_and!.
  - split.
    + intros Hnil. destruct (InitNodesAddreses cc) as [|a l] eqn:Hl; [done|].
      destruct Hpick as (addr & _ & Hres); [done|]. congruence.
    + intros Hnil. unfold GetRandomInitialAddress. by rewrite Hnil.
  - done.
  - intros addr Hone. destruct Hpick as (addr' & Hin & Hres).
    { by rewrite Hone. }
    rewrite Hone in Hin. apply list_elem_of_singleton in Hin. by subst.
Qed.

Lemma GetRandomInitialAddress_returns cc now (g : Rng) :
  (∀ n g, (0 < n)%Z → (0 ≤ (rand_Intn n g).1 < n)%Z) →
  InitNodesAddreses cc ≠ [] →
  ∃ addr, addr ∈ InitNodesAddreses cc
    ∧ (GetRandomInitialAddress cc now g).1
      = Returns (Some (LoadFromString addr zero_NodeAddr)).
Proof.
  intros Hrange Hne. unfold GetRandomInitialAddress.
  destruct (InitNodesAddreses cc) as [|a l] eqn:Hl; [done|].
  rewrite decide_False by done.
  specialize (Hrange (Z.of_nat (length (a :: l))) (rand_Seed now g)).
  destruct (rand_Intn _ _) as [i g'].
  destruct (index_string_range (a :: l) i) as (addr & Hidx & Hin).
  { apply Hrange. simpl. lia. }
  rewrite Hidx. by exists addr.
Qed.

(** C10. With [rand.Seed] putting the generator in a state that depends
    on the seed alone, as the library documents it, two calls of
    GetRandomInitialAddress that read the same second on the same address
    list return the same thing and leave the generator in the same state,
    whatever the generator was doing before.  On a list that is not empty
    what they return is the element of the list at the index that
    [rand.Intn] draws right after [rand.Seed] of that second, loaded into
    a node address: a function of the list and of the second.  With
    [rand.Intn(n)] in its documented range this is an address of the
    list, the same one for both calls. *)
Theorem GetRandomInitialAddress_same_second cc1 cc2 now (g1 g2 : Rng) :
  (∀ seed g g', rand_Seed seed g = rand_Seed seed g') →
  InitNodesAddreses cc1 = InitNodesAddreses cc2 →
  (GetRandomInitialAddress cc1 now g1).1 = (GetRandomInitialAddress cc2 now g2).1
  ∧ (InitNodesAddreses cc1 ≠ [] →
     (GetRandomInitialAddress cc1 now g1).2 = (GetRandomInitialAddress cc2 now g2).2)
  ∧ (InitNodesAddreses cc1 ≠ [] → ∀ g0 : Rng,
     (GetRandomInitialAddress cc1 now g1).1
     = match index_string (InitNodesAddreses cc1)
               (rand_Intn (Z.of_nat (length (InitNodesAddreses cc1)))
                  (rand_Seed now g0)).1
       with
       | Returns addr => Returns (Some (LoadFromString addr zero_NodeAddr))
       | Panics => Panics
       end)
  ∧ ((∀ n g, (0 < n)%Z → (0 ≤ (rand_Intn n g).1 < n)%Z) →
     InitNodesAddreses cc1 ≠ [] →
     ∃ addr, addr ∈ InitNodesAddreses cc1
       ∧ (GetRandomInitialAddress cc1 now g1).1
         = Returns (Some (LoadFromString addr zero_NodeAddr))
       ∧ (GetRandomInitialAddress cc2 now g2).1
         = Returns (Some (LoadFromString addr zero_NodeAddr))).
Proof.
  intros Hseed Hlist.
  assert (Hsame :
    (GetRandomInitialAddress cc1 now g1).1 = (GetRandomInitialAddress cc2 now g2).1
    ∧ (InitNodesAddreses cc1 ≠ [] →
       (GetRandomInitialAddress cc1 now g1).2
       = (GetRandomInitialAddress cc2 now g2).2)).
  { unfold GetRandomInitialAddress.
    rewrite <- Hlist, (Hseed now g1 g2).
    case_decide as Hlen; [split; [done|]|].
    - intros Hne. by destruct (InitNodesAddreses cc1).
    - destruct (rand_Intn _ _) as [i g'].
      by destruct (index_string (InitNodesAddreses cc1) i). }
  destruct Hsame as [Hresult Hstate].
  split_and!; [done|done| |].
  - intros Hne g0. unfold GetRandomInitialAddress.
    rewrite decide_False by (by destruct (InitNodesAddreses cc1)).
    rewrite (Hseed now g1 g0).
    destruct (rand_Intn _ _) as [i g']. simpl.
    by destruct (index_string (InitNodesAddreses cc1) i).
  - intros Hrange Hne.
    destruct (GetRandomInitialAddress_returns cc1 now g1 Hrange Hne)
      as (addr & Hin & Hpick).
    exists addr. split_and!; [done|done|]. by rewrite <- Hresult.
Qed.

(** C9, amended. UpdateConfig returns the error of the missing file path
    (a configuration error) exactly when the file path of the state is
    empty, and then the file system is untouched.  SetConfigFilePath
    changes the file path of the state and nothing else.  After
    SetConfigFilePath with a path that is not empty, UpdateConfig is one
    write of the document, as it is, to that path with mode 0644: it
    succeeds when the write does, the file then reads back as the
    document on a file system that returns what was written, and it
    returns the error of the write otherwise. *)
Theorem UpdateConfig_after_SetConfigFilePath cc path jsondoc (fs : FS) :
  path ≠ "" →
  (∀ p d m (fs fs' : FS),
     ioutil_WriteFile p d m fs = (fs', None) → ioutil_ReadFile p fs' = inr d) →
  ((UpdateConfig cc jsondoc fs).1 = Err ErrFilePathMissed
   ↔ filePath (state cc) = "")
  ∧ (filePath (state cc) = "" →
     UpdateConfig cc jsondoc fs = (Err ErrFilePathMissed, fs))
  ∧ ConfigurationError ErrFilePathMissed
  ∧ filePath (state (SetConfigFilePath path cc)) = path
  ∧ set_state (state cc) (SetConfigFilePath path cc) = cc
  ∧ isDefault (state (SetConfigFilePath path cc)) = isDefault (state cc)
  ∧ UpdateConfig (SetConfigFilePath path cc) jsondoc fs
    = WriteFile path jsondoc mode_0644 fs
  ∧ (∀ fs', ioutil_WriteFile path jsondoc mode_0644 fs = (fs', None) →
       UpdateConfig (SetConfigFilePath path cc) jsondoc fs = (Ok (), fs')
       ∧ ioutil_ReadFile path fs' = inr jsondoc)
  ∧ (∀ fs' text, ioutil_WriteFile path jsondoc mode_0644 fs = (fs', Some text) →
       UpdateConfig (SetConfigFilePath path cc) jsondoc fs
       = (Err (ioutil_error text), fs')).
Proof.
  intros Hpath Hfs.
  assert (Hset : UpdateConfig (SetConfigFilePath path cc) jsondoc fs
                 = WriteFile path jsondoc mode_0644 fs).
  { unfold UpdateConfig. simpl. by rewrite decide_False. }
  split_and!.
  - unfold UpdateConfig. case_decide; [done|]. split; [|done].
    intros Hw. by apply WriteFile_not_errors_New in Hw.
  - intros Hempty. unfold UpdateConfig. by rewrite decide_True.
  - done.
  - done.
  - by destruct cc as [? ? ? ? ? ? ? ? ? ? ? []].
  - done.
  - done.
  - intros fs' Hw. rewrite Hset. unfold WriteFile. rewrite Hw.
    split; [done|]. by eapply Hfs.
  - intros fs' text Hw. rewrite Hset. unfold WriteFile. by rewrite Hw.
Qed.

Lemma spec_address_list_stable existing overrideAddresses selfAddress :
  let addresses := spec_address_list existing overrideAddresses selfAddress in
  addresses ≠ [] →
  spec_address_list addresses overrideAddresses selfAddress = addresses.
Proof.
  unfold spec_address_list.
  destruct (spec_override_list overrideAddresses selfAddress);
    destruct existing; simpl;
    repeat (case_decide; simpl in * ); try done; intuition congruence.
Qed.

Lemma spec_application_name_stable existing appName :
  spec_application_name (spec_application_name existing appName) appName
  = spec_application_name existing appName.
Proof. unfold spec_application_name. by repeat case_decide. Qed.

Lemma fill_defaults_filled config :
  defaults_filled config → fill_defaults config = config.
Proof.
  intros (Hcoins & Hkind & Hsettings).
  unfold fill_defaults, complete_PoW_settings. rewrite Hcoins.
  cbv zeta. destruct (decide (Kind config = "")) as [|_]; [done|].
  case_decide as Hpow; [|done].
  rewrite (Hsettings Hpow). by destruct config.
Qed.

(** X15. Take a configuration in which the defaults of
    NewConfigFromFile are already filled in (reward not zero, Kind not
    empty, proof-of-work settings completed), a JSON library that skips
    the unexported state, and an Export that succeeds with a document
    that parses back to the field values that were exported.  Then
    NewConfigFromFile on a file with that document succeeds, and Export
    of the loaded configuration with the same arguments succeeds with the
    same document. *)
Theorem Export_round_trip cfg overrideAddresses appName selfAddress
    filepath (fs : FS) doc :
  defaults_filled cfg →
  (∀ c st, json_Marshal (set_state st c) = json_Marshal c) →
  Export cfg overrideAddresses appName selfAddress = Ok doc →
  json_Unmarshal doc zero_Config
  = inr (set_state zero_State
           (spec_exported cfg overrideAddresses appName selfAddress)) →
  ioutil_ReadFile filepath fs = inr doc →
  ∃ loaded,
    NewConfigFromFile filepath fs = (Ok loaded, fs)
    ∧ Export loaded overrideAddresses appName selfAddress = Ok doc
    ∧ same_document doc doc.
Proof.
  intros Hfilled Hstate Hexport Hparse Hread.
  set (exported := spec_exported cfg overrideAddresses appName selfAddress) in *.
  eexists. split; [by eapply NewConfigFromFile_parsed|].
  split; [|by eexists].
  rewrite fill_defaults_filled by (by destruct cfg).
  rewrite Export_spec in Hexport |- *. unfold spec_Export_merge in *.
  fold exported in Hexport.
  destruct (decide (spec_address_list (InitNodesAddreses cfg)
                      overrideAddresses selfAddress = [])) as [|Haddr]; [done|].
  destruct (decide (spec_application_name (Name (Application cfg)) appName = ""))
    as [|Hname]; [done|].
  assert (Hsame : spec_exported
            (set_filePath filepath (set_isDefault false (set_state zero_State exported)))
            overrideAddresses appName selfAddress
          = set_state (mkState false filepath) exported).
  { unfold spec_exported, exported, spec_exported. simpl.
    rewrite spec_address_list_stable by done.
    by rewrite spec_application_name_stable. }
  rewrite Hsame. simpl.
  rewrite spec_address_list_stable by done.
  rewrite spec_application_name_stable.
  rewrite !decide_False by done.
  unfold Marshal in *. by rewrite Hstate.
Qed.

End Lifecycle_properties.

Section Round_trip_properties.

Context {any : Type} {ext : Externals any}.
Implicit Types c cfg config u e : ConsensusConfig any.

Lemma configuration_invariant_filled config :
  settings_round_trip → configuration_invariant config → defaults_filled config.
Proof.
  intros [Hdecode Hcomplete] (Hreward & Hkind & Hsettings).
  split_and!; [done|done|].
  intros Hpow. destruct (Hsettings Hpow) as [s Hs].
  by rewrite Hs, Hdecode, Hcomplete.
Qed.

Lemma constructors_establish_invariant filepath fp (fs fs' : FS) c :
  (NewConfigDefault fs = (Ok c, fs') → configuration_invariant c)
  ∧ (NewConfigFromFile filepath fs = (Ok c, fs') → configuration_invariant c)
  ∧ (configuration_invariant c → configuration_invariant (SetConfigFilePath fp c)).
Proof.
  split_and!.
  - intros [= <- _]. split_and!; [done|done|]. intros _. by eexists.
  - unfold NewConfigFromFile, mbind, IO_bind, ReadFile, io_lift, Unmarshal.
    destruct (ioutil_ReadFile filepath fs) as [text|data]; [done|].
    destruct (json_Unmarshal data zero_Config) as [text|parsed]; [done|].
    simpl. intros [= <- _]. unfold fill_defaults, complete_PoW_settings.
    destruct (float64_is_zero (CoinsForBlockMade parsed)) eqn:Hzero;
      repeat (case_decide; simpl in * ); split_and!; try done;
      try (intros _; by eexists).
  - by destruct c.
Qed.

Lemma spec_exported_invariant cfg overrideAddresses appName selfAddress :
  configuration_invariant cfg →
  configuration_invariant (spec_exported cfg overrideAddresses appName selfAddress).
Proof. by destruct cfg. Qed.

Lemma Export_merge_fixed e defaultaddresses appname thisnodeaddr :
  Export_merge e defaultaddresses appname thisnodeaddr = Ok e →
  spec_address_list (InitNodesAddreses e) defaultaddresses thisnodeaddr
  = InitNodesAddreses e
  ∧ InitNodesAddreses e ≠ []
  ∧ spec_application_name (Name (Application e)) appname = Name (Application e)
  ∧ Name (Application e) ≠ "".
Proof.
  rewrite Export_merge_spec. unfold spec_Export_merge, spec_exported.
  destruct (decide (spec_address_list (InitNodesAddreses e)
                      defaultaddresses thisnodeaddr = [])) as [|Haddr]; [done|].
  destruct (decide (spec_application_name (Name (Application e)) appname = ""))
    as [|Hname]; [done|].
  intros [= He].
  pose proof (f_equal InitNodesAddreses He) as Ha.
  pose proof (f_equal (λ c, Name (Application c)) He) as Hn.
  simpl in Ha, Hn. rewrite Ha in Haddr. rewrite Hn in Hname. done.
Qed.

Section With_same.

Context (same : ConsensusConfig any → ConsensusConfig any → Prop)
  {json_same : JSON_same same}.

Local Instance same_equivalence_instance : Equivalence same := same_equivalence.

Lemma fill_defaults_same u e :
  same u e → defaults_filled e → same (fill_defaults u) e.
Proof.
  intros Hsame (Hreward & Hkind & Hsettings).
  unfold fill_defaults.
  rewrite (same_reward_zero u e Hsame), Hreward.
  destruct (decide (Kind u = "")) as [Hu|_].
  { by apply (same_Kind_empty u e Hsame) in Hu. }
  destruct (decide (Kind u = KindConseususPoW)) as [Hpow|Hother]; [|done].
  apply (same_Kind_PoW u e Hsame) in Hpow.
  assert (He : complete_PoW_settings e = e).
  { unfold complete_PoW_settings. rewrite (Hsettings Hpow). by destruct e. }
  rewrite <- He. by apply same_settings.
Qed.

Lemma Export_merge_same c e defaultaddresses appname thisnodeaddr :
  same c e →
  Export_merge e defaultaddresses appname thisnodeaddr = Ok e →
  ∃ e', Export_merge c defaultaddresses appname thisnodeaddr = Ok e' ∧ same e' e.
Proof.
  intros Hsame Hfixed.
  destruct (Export_merge_fixed _ _ _ _ Hfixed) as (Haddr & Hfull & Hname & Hnamed).
  assert (Hc : InitNodesAddreses c ≠ []).
  { intros Hc. by apply (same_addresses_empty c e Hsame) in Hc. }
  assert (Hn : Name (Application c) ≠ "").
  { intros Hn. by apply (same_name_empty c e Hsame) in Hn. }
  set (addresses :=
    spec_address_list (InitNodesAddreses c) defaultaddresses thisnodeaddr).
  assert (addresses ≠ [] ∧ same (set_InitNodesAddreses addresses c) e)
    as [Hne Hsame1].
  { subst addresses. revert Haddr. unfold spec_address_list.
    destruct (decide (spec_override_list defaultaddresses thisnodeaddr = []))
      as [Hnone|Hsome].
    - intros _. rewrite decide_False by tauto.
      by rewrite set_InitNodesAddreses_id.
    - rewrite !decide_False by tauto. intros Haddr. split; [done|].
      rewrite <- (set_InitNodesAddreses_id e), <- Haddr.
      by apply same_set_addresses. }
  set (name := spec_application_name (Name (Application c)) appname).
  assert (name ≠ ""
          ∧ same (set_Application_Name name (set_InitNodesAddreses addresses c)) e)
    as [Hnamec Hsame2].
  { subst name. revert Hname. unfold spec_application_name.
    destruct (decide (appname = "")) as [->|Happ].
    - intros _. split; [done|].
      replace (Name (Application c))
        with (Name (Application (set_InitNodesAddreses addresses c))) by done.
      by rewrite set_Application_Name_id.
    - intros Hname. split; [done|].
      rewrite <- (set_Application_Name_id e), <- Hname.
      by apply same_set_name. }
  eexists. split; [|exact Hsame2].
  rewrite Export_merge_spec. unfold spec_Export_merge, spec_exported.
  fold addresses name. by rewrite !decide_False.
Qed.

Lemma Export_merge_again cfg defaultaddresses appname thisnodeaddr e :
  Export_merge cfg defaultaddresses appname thisnodeaddr = Ok e →
  e = spec_exported cfg defaultaddresses appname thisnodeaddr
  ∧ Export_merge e defaultaddresses appname thisnodeaddr = Ok e.
Proof.
  rewrite !Export_merge_spec. unfold spec_Export_merge at 1.
  destruct (decide (spec_address_list (InitNodesAddreses cfg)
                      defaultaddresses thisnodeaddr = [])) as [|Haddr]; [done|].
  destruct (decide (spec_application_name (Name (Application cfg)) appname = ""))
    as [|Hname]; [done|].
  intros [= <-]. split; [done|].
  unfold spec_Export_merge, spec_exported. simpl.
  rewrite spec_address_list_stable by done.
  rewrite spec_application_name_stable.
  by rewrite !decide_False by done.
Qed.

(** C6. For a configuration that has the invariants of section 3, with
    settings libraries that round-trip and any notion of same field
    values that encoding/json supports: when Export succeeds with a
    document and a file holds that document, NewConfigFromFile on the
    file succeeds, Export of the loaded configuration with the same
    three arguments succeeds, and its document parses to the same field
    values as the first one. *)
Theorem Export_Load_round_trip cfg overrideAddresses appName selfAddress
    filepath (fs : FS) doc :
  configuration_invariant cfg →
  settings_round_trip →
  Export cfg overrideAddresses appName selfAddress = Ok doc →
  ioutil_ReadFile filepath fs = inr doc →
  ∃ loaded doc',
    NewConfigFromFile filepath fs = (Ok loaded, fs)
    ∧ Export loaded overrideAddresses appName selfAddress = Ok doc'
    ∧ same_document doc doc'.
Proof.
  intros Hinv Hsettings Hexport Hread.
  unfold Export in Hexport.
  destruct (Export_merge cfg overrideAddresses appName selfAddress)
    as [e|] eqn:Hmerge; [|done].
  destruct (Export_merge_again _ _ _ _ _ Hmerge) as [He Hagain].
  assert (Hfilled : defaults_filled e).
  { apply configuration_invariant_filled; [done|].
    rewrite He. by apply spec_exported_invariant. }
  unfold Marshal in Hexport.
  destruct (json_Marshal e) as [|doc0] eqn:Hmarshal; [done|].
  injection Hexport as ->.
  destruct (same_Unmarshal e doc Hmarshal) as (u & Hparse & Hu).
  pose proof (fill_defaults_same u e Hu Hfilled) as Hloaded.
  assert (Hsame : same (set_filePath filepath
                          (set_isDefault false (fill_defaults u))) e).
  { unfold set_filePath, set_isDefault.
    etrans; [apply same_state|]. etrans; [apply same_state|]. done. }
  destruct (Export_merge_same _ _ overrideAddresses appName selfAddress
              Hsame Hagain) as (e' & Hmerge' & He').
  destruct (same_Marshal e e' doc) as (doc' & Hmarshal' & Hdocs); [done|done|].
  eexists _, doc'. split_and!.
  - by eapply NewConfigFromFile_parsed.
  - unfold Export. rewrite Hmerge'. unfold Marshal. by rewrite Hmarshal'.
  - done.
Qed.

End With_same.

End Round_trip_properties.

Section Mem_properties.

Context {any : Type} {ext : Externals any}.
Variable growslice : nat → nat.
Implicit Types (h : Mem.Heap any) (s : Mem.slice) (l : list string).
Implicit Types (mc : Mem.MemConfig) (cfg : ConsensusConfig any).

Lemma alloc_fresh h (c : Mem.cell any) :
  ∃ p, Mem.alloc c h = Some (p, <[p := c]> h) ∧ h !! p = None.
Proof.
  exists (fresh (dom h)). split; [done|].
  apply not_elem_of_dom, is_fresh.
Qed.

Lemma make_strings_own h l :
  ∃ s h', Mem.make_strings l h = Some (s, h') ∧ Mem.own_slice h h' s l.
Proof.
  destruct (alloc_fresh h (Mem.CStrings l)) as (p & Halloc & Hp).
  eexists _, _. split.
  { unfold Mem.make_strings, mbind, Mem.M_bind. rewrite Halloc. reflexivity. }
  exists p, l. split_and!; try done.
  - apply lookup_insert_eq.
  - by apply take_ge.
  - by apply insert_subseteq.
Qed.

Lemma own_slice_length h0 h s l : Mem.own_slice h0 h s l → Mem.len s = length l.
Proof. by intros (p & arr & -> & _). Qed.

Lemma own_slice_read h0 h s l :
  Mem.own_slice h0 h s l → Mem.read_strings h s = Some l.
Proof.
  intros (p & arr & -> & Hp & Htake & _). simpl. rewrite Hp.
  unfold Mem.window. simpl.
  assert (length l ≤ length arr).
  { rewrite <- Htake at 1. rewrite length_take. lia. }
  rewrite decide_True by (split; lia). by rewrite drop_0, Htake.
Qed.

Lemma append_string_own h0 h s l x :
  Mem.own_slice h0 h s l →
  ∃ s' h', Mem.append_string growslice s x h = Some (s', h')
    ∧ Mem.own_slice h0 h' s' (l ++ [x]).
Proof.
  intros (p & arr & -> & Hp & Htake & Hp0 & Hsub).
  assert (Hle : length l ≤ length arr).
  { rewrite <- Htake at 1. rewrite length_take. lia. }
  unfold Mem.append_string, mbind, Mem.M_bind, Mem.load_strings. simpl.
  rewrite Hp. case_decide as Hcap.
  - unfold Mem.store_strings. rewrite Hp. simpl.
    eexists _, _. split; [reflexivity|].
    exists p, (<[length l := x]> arr). split_and!.
    + by rewrite length_app, length_insert, Nat.add_1_r.
    + apply lookup_insert_eq.
    + rewrite length_app, Nat.add_1_r.
      rewrite (take_S_r _ _ x) by (by apply list_lookup_insert_eq).
      by rewrite take_insert_ge, Htake.
    + done.
    + by apply insert_subseteq_r.
  - assert (Hq : h !! fresh (dom h) = None) by apply not_elem_of_dom, is_fresh.
    set (q := fresh (dom h)) in *. rewrite drop_0, Htake.
    eexists _, _. split; [reflexivity|].
    exists q, (l ++ x :: replicate
                 (S (length l) `max` growslice (length arr) - S (length l)) "").
    split_and!.
    + f_equal. f_equal.
      * rewrite length_app. cbn [length]. lia.
      * rewrite length_app, length_cons, length_replicate. lia.
    + apply lookup_insert_eq.
    + set (r := replicate _ _).
      replace (l ++ x :: r) with ((l ++ [x]) ++ r) by (by rewrite <- app_assoc).
      apply take_app_length.
    + by eapply lookup_weaken_None.
    + etrans; [done|]. by apply insert_subseteq.
Qed.

Lemma Export_loop_body_own h0 h s l thisnodeaddr a :
  Mem.own_slice h0 h s l →
  ∃ s' h', Mem.Export_loop_body growslice thisnodeaddr s a h = Some (s', h')
    ∧ Mem.own_slice h0 h' s' (Export_loop_body thisnodeaddr l a).
Proof.
  intros Hown. unfold Mem.Export_loop_body, Export_loop_body.
  repeat case_decide; try (by apply append_string_own); by eexists _, _.
Qed.

Lemma range_loop_own h0 thisnodeaddr list : ∀ h s l,
  Mem.own_slice h0 h s l →
  ∃ s' h',
    Mem.range_loop (Mem.Export_loop_body growslice thisnodeaddr) s list h
      = Some (s', h')
    ∧ Mem.own_slice h0 h' s' (foldl (Export_loop_body thisnodeaddr) l list).
Proof.
  induction list as [|a list IH]; intros h s l Hown; simpl.
  - by eexists _, _.
  - destruct (Export_loop_body_own _ _ _ _ thisnodeaddr a Hown)
      as (s1 & h1 & Hbody & Hown1).
    destruct (IH _ _ _ Hown1) as (s2 & h2 & Hloop & Hown2).
    exists s2, h2. split; [|done].
    unfold mbind, Mem.M_bind. by rewrite Hbody.
Qed.

Lemma Export_addresses_own h defaultaddresses thisnodeaddr :
  ∃ s h', Mem.Export_addresses growslice defaultaddresses thisnodeaddr h
            = Some (s, h')
    ∧ Mem.own_slice h h' s (Export_addresses defaultaddresses thisnodeaddr).
Proof.
  destruct (make_strings_own h []) as (s0 & h0 & Hmake & Hown0).
  unfold Mem.Export_addresses, Export_addresses, mbind, Mem.M_bind.
  rewrite Hmake. case_decide.
  - by apply range_loop_own.
  - by eexists _, _.
Qed.

(** Reading through a heap that has grown. *)
Lemma read_strings_weaken h h' s l :
  h ⊆ h' → Mem.read_strings h s = Some l → Mem.read_strings h' s = Some l.
Proof.
  intros Hsub. destruct s as [hd|]; simpl; [|done].
  destruct (h !! Mem.s_ptr hd) as [c|] eqn:Hc; [|done].
  by rewrite (lookup_weaken _ _ _ _ Hc Hsub).
Qed.

Lemma read_tables_weaken h h' s (l : list ConsensusConfigTable) :
  h ⊆ h' → Mem.read_tables h s = Some l → Mem.read_tables h' s = Some l.
Proof.
  intros Hsub. destruct s as [hd|]; simpl; [|done].
  destruct (h !! Mem.s_ptr hd) as [c|] eqn:Hc; [|done].
  by rewrite (lookup_weaken _ _ _ _ Hc Hsub).
Qed.

Lemma read_map_weaken h h' r (m : gmap string any) :
  h ⊆ h' → Mem.read_map h r = Some m → Mem.read_map h' r = Some m.
Proof.
  intros Hsub. destruct r as [p|]; simpl; [|done].
  destruct (h !! p) as [c|] eqn:Hc; [|done].
  by rewrite (lookup_weaken _ _ _ _ Hc Hsub).
Qed.

Lemma read_config_weaken h h' mc cfg :
  h ⊆ h' → Mem.read_config h mc = Some cfg → Mem.read_config h' mc = Some cfg.
Proof.
  intros Hsub. unfold Mem.read_config. intros Hread.
  destruct (Mem.read_map h _) as [m|] eqn:Hm; [|done].
  destruct (Mem.read_strings h (Mem.m_UnmanagedTables mc)) as [u|] eqn:Hu; [|done].
  destruct (Mem.read_tables h _) as [t|] eqn:Ht; [|done].
  destruct (Mem.read_strings h (Mem.m_InitNodesAddreses mc)) as [a|] eqn:Ha; [|done].
  rewrite (read_map_weaken _ _ _ _ Hsub Hm), (read_strings_weaken _ _ _ _ Hsub Hu),
    (read_tables_weaken _ _ _ _ Hsub Ht), (read_strings_weaken _ _ _ _ Hsub Ha).
  done.
Qed.

Lemma read_strings_length h s l :
  Mem.read_strings h s = Some l → Mem.len s = length l.
Proof.
  destruct s as [hd|]; simpl; [|by intros [= <-]].
  destruct (h !! Mem.s_ptr hd) as [[]|]; try done.
  unfold Mem.window. case_decide as Hw; [|done]. intros [= <-].
  rewrite length_take, length_drop. lia.
Qed.

Lemma read_config_addresses h mc cfg :
  Mem.read_config h mc = Some cfg →
  Mem.read_strings h (Mem.m_InitNodesAddreses mc) = Some (InitNodesAddreses cfg).
Proof.
  unfold Mem.read_config. intros Hread.
  destruct (Mem.read_map h _); [|done].
  destruct (Mem.read_strings h (Mem.m_UnmanagedTables mc)); [|done].
  destruct (Mem.read_tables h _); [|done].
  destruct (Mem.read_strings h (Mem.m_InitNodesAddreses mc)); [|done].
  simpl in Hread. by injection Hread as <-.
Qed.

Lemma read_config_set_addresses h mc cfg s l :
  Mem.read_config h mc = Some cfg →
  Mem.read_strings h s = Some l →
  Mem.read_config h (Mem.set_m_InitNodesAddreses s mc)
  = Some (set_InitNodesAddreses l cfg).
Proof.
  unfold Mem.read_config. intros Hread Hs. simpl.
  destruct (Mem.read_map h _); [|done].
  destruct (Mem.read_strings h (Mem.m_UnmanagedTables mc)); [|done].
  destruct (Mem.read_tables h _); [|done].
  destruct (Mem.read_strings h (Mem.m_InitNodesAddreses mc)); [|done].
  rewrite Hs. simpl in *. by injection Hread as <-.
Qed.

Lemma read_config_set_name h mc cfg n :
  Mem.read_config h mc = Some cfg →
  Mem.read_config h (Mem.set_m_Application_Name n mc)
  = Some (set_Application_Name n cfg)
  ∧ Name (Mem.m_Application mc) = Name (Application cfg).
Proof.
  unfold Mem.read_config. intros Hread. simpl.
  destruct (Mem.read_map h _); [|done].
  destruct (Mem.read_strings h (Mem.m_UnmanagedTables mc)); [|done].
  destruct (Mem.read_tables h _); [|done].
  destruct (Mem.read_strings h (Mem.m_InitNodesAddreses mc)); [|done].
  simpl in *. by injection Hread as <-.
Qed.

Lemma own_slice_subseteq h0 h s l : Mem.own_slice h0 h s l → h0 ⊆ h.
Proof. by intros (p & arr & _ & _ & _ & _ & Hsub). Qed.

Lemma Export_merge_addresses_mem h mc cfg defaultaddresses thisnodeaddr :
  Mem.read_config h mc = Some cfg →
  ∃ cc h',
    Mem.Export_merge_addresses growslice mc defaultaddresses thisnodeaddr h
      = Some (cc, h')
    ∧ h ⊆ h'
    ∧ Mem.read_config h' cc
      = Some (Export_merge_addresses cfg defaultaddresses thisnodeaddr).
Proof.
  intros Hread.
  destruct (Export_addresses_own h defaultaddresses thisnodeaddr)
    as (s & h1 & Hadd & Hown).
  pose proof (own_slice_subseteq _ _ _ _ Hown) as Hsub1.
  pose proof (own_slice_read _ _ _ _ Hown) as Hs.
  pose proof (read_config_weaken _ _ _ _ Hsub1 Hread) as Hread1.
  pose proof (read_strings_length _ _ _ (read_config_addresses _ _ _ Hread)) as Hlen.
  unfold Mem.Export_merge_addresses, Export_merge_addresses, mbind, Mem.M_bind.
  rewrite Hadd, (own_slice_length _ _ _ _ Hown).
  destruct (decide (0 < length (Export_addresses defaultaddresses thisnodeaddr)))
    as [Hpos|Hzero].
  - cbn [Mem.m_InitNodesAddreses Mem.set_m_InitNodesAddreses
         InitNodesAddreses set_InitNodesAddreses].
    rewrite (own_slice_length _ _ _ _ Hown).
    rewrite !decide_False by lia.
    eexists _, _. split_and!; [reflexivity|done|].
    by apply read_config_set_addresses.
  - rewrite Hlen.
    destruct (decide (length (InitNodesAddreses cfg) = 0 ∧ thisnodeaddr ≠ ""))
      as [Hself|Hkeep].
    + destruct (make_strings_own h1 [thisnodeaddr]) as (s2 & h2 & Hmake & Hown2).
      rewrite Hmake.
      pose proof (own_slice_subseteq _ _ _ _ Hown2) as Hsub2.
      eexists _, _. split_and!; [reflexivity|by etrans|].
      apply read_config_set_addresses.
      * by eapply read_config_weaken.
      * by eapply own_slice_read.
    + by eexists _, _.
Qed.

(** C7. Export called on the configuration at [p] returns what Export
    returns on the value of that configuration, and leaves the caller's
    memory as it was: the struct at [p], the value read through its map
    and its slices, and every location of the heap it started from.  The
    body writes its receiver copy and arrays of its own only. *)
Theorem Export_leaves_caller_unchanged h p mc cfg
    overrideAddresses appName selfAddress :
  h !! p = Some (Mem.CStruct mc) →
  Mem.read_config h mc = Some cfg →
  ∃ h',
    Mem.Export growslice p overrideAddresses appName selfAddress h
      = Some (Export cfg overrideAddresses appName selfAddress, h')
    ∧ h' !! p = Some (Mem.CStruct mc)
    ∧ Mem.read_config h' mc = Some cfg
    ∧ (∀ q c, h !! q = Some c → h' !! q = Some c).
Proof.
  intros Hp Hread.
  destruct (Export_merge_addresses_mem h mc cfg overrideAddresses selfAddress Hread)
    as (cc & h' & Hmerge & Hsub & Hcc).
  exists h'. split_and!.
  - unfold Mem.Export, Export, Export_merge, mbind, Mem.M_bind, Mem.load_struct.
    rewrite Hp, Hmerge.
    rewrite (read_strings_length _ _ _ (read_config_addresses _ _ _ Hcc)).
    case_decide; [done|].
    destruct (read_config_set_name h' cc _ appName Hcc) as [Hset Hname].
    destruct (decide (appName ≠ "")) as [Hne|Heq].
    + cbn [Mem.m_Application Mem.set_m_Application_Name Application
           set_Application_Name Name].
      case_decide; [done|].
      unfold Mem.get_config. by rewrite Hset.
    + rewrite Hname. case_decide; [done|].
      unfold Mem.get_config. by rewrite Hcc.
  - by eapply lookup_weaken.
  - by eapply read_config_weaken.
  - intros q c Hq. by eapply lookup_weaken.
Qed.

(** X14. By contrast, SetConfigFilePath, with its pointer receiver,
    writes the struct of the caller and no other location, and what it
    writes is the configuration that the value-level SetConfigFilePath
    returns. *)
Lemma SetConfigFilePath_writes_caller h p mc cfg fp :
  h !! p = Some (Mem.CStruct mc) →
  Mem.read_config h mc = Some cfg →
  ∃ mc',
    Mem.SetConfigFilePath p fp h = Some ((), <[p := Mem.CStruct mc']> h)
    ∧ Mem.read_config h mc' = Some (SetConfigFilePath fp cfg).
Proof.
  intros Hp Hread. eexists. split.
  - unfold Mem.SetConfigFilePath, mbind, Mem.M_bind, Mem.load_struct,
      Mem.store_struct. rewrite Hp. simpl. rewrite Hp. reflexivity.
  - revert Hread. unfold Mem.read_config. simpl.
    destruct (Mem.read_map h _); [|done].
    destruct (Mem.read_strings h (Mem.m_UnmanagedTables mc)); [|done].
    destruct (Mem.read_tables h _); [|done].
    destruct (Mem.read_strings h (Mem.m_InitNodesAddreses mc)); [|done].
    simpl. by intros [= <-].
Qed.

End Mem_properties.

(** * The theorems on the executable instance *)

Lemma Reference_write_read p d m (fs fs' : gmap string bytes) :
  Reference.WriteFile p d m fs = (fs', None) → Reference.ReadFile p fs' = inr d.
Proof.
  unfold Reference.WriteFile, Reference.ReadFile.
  case_decide; [done|]. destruct (Reference.is_directory_path p); [done|].
  intros [= <-]. by rewrite lookup_insert_eq.
Qed.

Lemma Reference_Marshal_state (c : ConsensusConfig Z) st :
  Reference.Marshal (set_state st c) = Reference.Marshal c.
Proof. done. Qed.

Lemma Reference_Intn_range n g :
  (0 < n)%Z → (0 ≤ (Reference.Intn n g).1 < n)%Z.
Proof. intros Hn. simpl. by apply Z.mod_pos_bound. Qed.

Lemma Reference_undigits_digits p : Reference.undigits (Reference.digits p) = Some p.
Proof. induction p as [p IH|p IH|]; simpl; by rewrite ?IH. Qed.

Lemma Reference_float_decode_encode x :
  Reference.float_decode (Reference.float_encode x) = x.
Proof.
  unfold Reference.float_decode, Reference.float_encode.
  rewrite <- (SF2Prim_Prim2SF x) at 2.
  by destruct (Prim2SF x).
Qed.

Lemma Reference_cost_decode_encode c :
  Reference.cost_decode (Reference.cost_encode c) = Some c.
Proof.
  destruct c. unfold Reference.cost_decode, Reference.cost_encode. simpl.
  by rewrite !Reference_float_decode_encode.
Qed.

Lemma Reference_table_decode_encode t :
  Reference.table_decode (Reference.table_encode t) = Some t.
Proof.
  destruct t. unfold Reference.table_decode, Reference.table_encode.
  cbn -[Reference.cost_decode Reference.cost_encode].
  by rewrite Reference_cost_decode_encode.
Qed.

Lemma Reference_tables_decode_encode (l : list ConsensusConfigTable) :
  mapM Reference.table_decode (Reference.table_encode <$> l) = Some l.
Proof.
  induction l as [|t l IH]; [done|].
  rewrite fmap_cons. cbn [mapM]. rewrite Reference_table_decode_encode.
  simpl. by rewrite IH.
Qed.

Lemma Reference_config_decode_encode (c : ConsensusConfig Z) st :
  Reference.config_decode (Reference.config_encode c) st = Some (set_state st c).
Proof.
  destruct c as [[n w t] k coins settings f1 f2 f3 cost um rules addrs st0].
  unfold Reference.config_decode, Reference.config_encode.
  cbn [Application Name WebSite Team Kind CoinsForBlockMade Settings
       AllowTableCreate AllowTableDrop AllowRowDelete TransactionCost
       UnmanagedTables TableRules InitNodesAddreses].
  rewrite !decode_encode. cbn [mbind option_bind].
  rewrite Reference_cost_decode_encode. cbn [mbind option_bind].
  rewrite Reference_tables_decode_encode. cbn [mbind option_bind].
  rewrite Reference_float_decode_encode, list_to_map_to_list.
  reflexivity.
Qed.

Lemma Reference_Unmarshal_Marshal (c : ConsensusConfig Z) doc target :
  Reference.Marshal c = inr doc →
  Reference.Unmarshal doc target = inr (set_state (state target) c).
Proof.
  unfold Reference.Marshal, Reference.Unmarshal.
  destruct (_ && _); [|done]. intros [= <-].
  rewrite Reference_undigits_digits. cbn [mbind option_bind].
  rewrite decode_encode. cbn [mbind option_bind].
  by rewrite Reference_config_decode_encode.
Qed.

Lemma Reference_JSON_same : JSON_same (ext := Reference.externals) Reference.same.
Proof.
  unfold Reference.same. split.
  - split; [by intros ?|by intros ? ?|by intros ? ? ? -> ->].
  - done.
  - intros c doc Hm. change (Reference.Marshal c = inr doc) in Hm.
    eexists. split.
    + by apply (Reference_Unmarshal_Marshal c).
    + done.
  - intros c c' doc Hsame Hm. change (Reference.Marshal c = inr doc) in Hm.
    exists doc. split.
    + change (Reference.Marshal c' = inr doc).
      rewrite <- (Reference_Marshal_state c' zero_State), <- Hsame.
      by rewrite Reference_Marshal_state.
    + eexists. split; by apply (Reference_Unmarshal_Marshal c).
  - intros c c' Hsame. apply (f_equal InitNodesAddreses) in Hsame. simpl in Hsame.
    by rewrite Hsame.
  - intros c c' Hsame. apply (f_equal (λ c, Name (Application c))) in Hsame.
    simpl in Hsame. by rewrite Hsame.
  - intros c c' Hsame. apply (f_equal CoinsForBlockMade) in Hsame. simpl in Hsame.
    by rewrite Hsame.
  - intros c c' Hsame. apply (f_equal Kind) in Hsame. simpl in Hsame.
    by rewrite Hsame.
  - intros c c' Hsame. apply (f_equal Kind) in Hsame. simpl in Hsame.
    by rewrite Hsame.
  - intros c c' l Hsame. destruct c, c'. simpl in *. by simplify_eq.
  - intros c c' n Hsame. destruct c as [[] ?], c' as [[] ?]. simpl in *.
    by simplify_eq.
  - intros c c' Hsame. destruct c, c'. simpl in *. by simplify_eq.
Qed.

Lemma Reference_settings_round_trip :
  settings_round_trip (ext := Reference.externals).
Proof.
  split; intros s; simpl.
  - unfold Reference.Decode, Reference.Map. by rewrite lookup_singleton_eq.
  - unfold Reference.complete. by repeat case_decide.
Qed.

(** The round trip of the sample configuration, whatever the codec
    makes of its fields. *)
Lemma Export_Load_round_trip_witness :
  ∃ loaded doc',
    NewConfigFromFile (ext := Reference.externals) "consensus.json"
      Reference.sample_fs = (Ok loaded, Reference.sample_fs)
    ∧ Export loaded "" "" "" = Ok doc'
    ∧ same_document Reference.sample_doc doc'.
Proof.
  apply (Export_Load_round_trip (ext := Reference.externals) Reference.same
           (json_same := Reference_JSON_same)
           Reference.sample "" "" "" "consensus.json" Reference.sample_fs
           Reference.sample_doc).
  - split_and!; [vm_compute; reflexivity|done|]. intros _. by exists 16%Z.
  - apply Reference_settings_round_trip.
  - vm_compute. reflexivity.
  - vm_compute. reflexivity.
Defined.

(** The sample without addresses fails with the text of the code, which
    is not the text "no initial addresses available."; and the sample
    without a name, which has addresses, fails with a validation error
    all the same. *)
Lemma Export_address_error_text :
  Export (ext := Reference.externals)
    (set_InitNodesAddreses [] Reference.sample) "" "" ""
    = Err (errors_New "List of default addresses is empty")
  ∧ errors_New "List of default addresses is empty"
    ≠ errors_New "no initial addresses available."
  ∧ Export (ext := Reference.externals)
      (set_Application_Name "" Reference.sample) "" "" ""
    = Err ErrAppNameEmpty
  ∧ ValidationError ErrAppNameEmpty
  ∧ spec_address_list
      (InitNodesAddreses (set_Application_Name "" Reference.sample)) "" "" ≠ [].
Proof. split_and!; [done|done|done|by right|done]. Defined.

(** The sample without a name fails with the text of the code, which is
    not the text "application name required." *)
Lemma Export_name_error_text :
  Export (ext := Reference.externals)
    (set_Application_Name "" Reference.sample) "" "" ""
    = Err (errors_New "Application name is empty. It is required")
  ∧ errors_New "Application name is empty. It is required"
    ≠ errors_New "application name required.".
Proof. split; done. Defined.

(** NewConfigFromFile on the document of the bare configuration: the
    reward, the Kind and the settings are filled in. *)
Lemma NewConfigFromFile_defaults_witness :
  ∃ config,
    NewConfigFromFile (ext := Reference.externals) "consensus.json"
      Reference.bare_fs
      = (Ok config, Reference.bare_fs)
    ∧ CoinsForBlockMade config = 10%float
    ∧ Kind config = KindConseususPoW
    ∧ Settings config = Reference.Map 16
    ∧ state config = mkState false "consensus.json".
Proof.
  destruct (NewConfigFromFile_defaults (ext := Reference.externals) "consensus.json"
              Reference.bare_fs Reference.bare_doc
              (set_state zero_State Reference.bare))
    as (config & Hload & Hcoins & Hkind & Hsettings & Hdefault & Hpath & _).
  - vm_compute. reflexivity.
  - vm_compute. reflexivity.
  - exists config. split_and!; [done|done|done| |].
    + rewrite Hsettings, Hkind. vm_compute. reflexivity.
    + destruct config as [? ? ? ? ? ? ? ? ? ? ? []]. simpl in *. by subst.
Defined.

(** The round trip of the sample configuration. *)
Lemma Export_round_trip_witness :
  ∃ loaded,
    NewConfigFromFile (ext := Reference.externals) "consensus.json"
      Reference.sample_fs
      = (Ok loaded, Reference.sample_fs)
    ∧ Export loaded "" "" "" = Ok Reference.sample_doc
    ∧ same_document Reference.sample_doc Reference.sample_doc.
Proof.
  apply (Export_round_trip (ext := Reference.externals) Reference.sample "" "" ""
           "consensus.json" Reference.sample_fs Reference.sample_doc).
  - split_and!; [vm_compute; reflexivity|done|intros _; vm_compute; reflexivity].
  - apply Reference_Marshal_state.
  - vm_compute. reflexivity.
  - vm_compute. reflexivity.
  - vm_compute. reflexivity.
Defined.

(** Outside the invariants of a configuration the round trip changes
    the document: a struct with reward zero and no Kind exports a
    document with reward zero; loading it back fills in 10, and the
    second export is another document. *)
Lemma Export_round_trip_fills_reward :
  ∃ loaded doc' parsed parsed',
    Export Reference.bare "" "" "" = Ok Reference.bare_doc
    ∧ NewConfigFromFile (ext := Reference.externals) "consensus.json"
        Reference.bare_fs
      = (Ok loaded, Reference.bare_fs)
    ∧ Export loaded "" "" "" = Ok doc'
    ∧ json_Unmarshal Reference.bare_doc zero_Config = inr parsed
    ∧ json_Unmarshal doc' zero_Config = inr parsed'
    ∧ float64_is_zero (CoinsForBlockMade parsed) = true
    ∧ CoinsForBlockMade parsed' = 10%float
    ∧ Kind parsed = "" ∧ Kind parsed' = KindConseususPoW
    ∧ ¬ same_document Reference.bare_doc doc'.
Proof.
  eexists _, _, _, _. split_and!; try (vm_compute; reflexivity).
  intros (c & Hc & Hc'). vm_compute in Hc, Hc'.
  rewrite <- Hc in Hc'. discriminate Hc'.
Defined.

(** After SetConfigFilePath with the empty path, and with the path of a
    directory, UpdateConfig fails. *)
Lemma UpdateConfig_fails_after_SetConfigFilePath :
  UpdateConfig (ext := Reference.externals)
    (SetConfigFilePath "" Reference.sample) Reference.sample_doc ∅
    = (Err ErrFilePathMissed, ∅)
  ∧ UpdateConfig (ext := Reference.externals)
      (SetConfigFilePath "/var/lib/node/" Reference.sample)
      Reference.sample_doc ∅
    = (Err (ioutil_error "is a directory"), ∅).
Proof. split; vm_compute; reflexivity. Defined.

Lemma UpdateConfig_after_SetConfigFilePath_witness :
  UpdateConfig (ext := Reference.externals)
    (SetConfigFilePath "consensus.json" Reference.sample)
    Reference.sample_doc ∅
  = (Ok (), Reference.sample_fs)
  ∧ Reference.ReadFile "consensus.json" Reference.sample_fs
    = inr Reference.sample_doc.
Proof.
  destruct (UpdateConfig_after_SetConfigFilePath (ext := Reference.externals) Reference.sample
              "consensus.json" Reference.sample_doc ∅)
    as (_ & _ & _ & _ & _ & _ & _ & Hok & _).
  - done.
  - apply Reference_write_read.
  - apply Hok. vm_compute. reflexivity.
Defined.

Lemma GetRandomInitialAddress_picks_witness :
  ∃ addr, addr ∈ InitNodesAddreses Reference.sample
    ∧ (GetRandomInitialAddress Reference.sample 1700000001 0%Z).1
      = Returns (Some addr).
Proof.
  destruct (GetRandomInitialAddress_picks (ext := Reference.externals) Reference.sample
              1700000001 0%Z Reference_Intn_range) as (_ & Hpick & _).
  apply Hpick. done.
Defined.

Lemma GetRandomInitialAddress_same_second_witness :
  ∃ addr, addr ∈ InitNodesAddreses Reference.sample
    ∧ (GetRandomInitialAddress Reference.sample 1700000001 0%Z).1
      = Returns (Some addr)
    ∧ (GetRandomInitialAddress Reference.sample 1700000001 42%Z).1
      = Returns (Some addr).
Proof.
  destruct (GetRandomInitialAddress_same_second (ext := Reference.externals)
              Reference.sample Reference.sample 1700000001 0%Z 42%Z)
    as (_ & _ & _ & Hpick); [done|done|].
  apply Hpick; [apply Reference_Intn_range|done].
Defined.

Lemma Export_leaves_caller_unchanged_witness :
  ∃ h',
    Mem.Export Reference.double 1%positive "own,192.0.2.9:9000" ""
      "203.0.113.5:9000" Reference.sample_heap
    = Some (Export Reference.sample "own,192.0.2.9:9000" "" "203.0.113.5:9000", h')
    ∧ h' !! 1%positive = Some (Mem.CStruct Reference.sample_mem)
    ∧ Mem.read_config h' Reference.sample_mem = Some Reference.sample
    ∧ (∀ q c, Reference.sample_heap !! q = Some c → h' !! q = Some c).
Proof.
  apply (Export_leaves_caller_unchanged (ext := Reference.externals)).
  - vm_compute. reflexivity.
  - vm_compute. reflexivity.
Defined.

(** On the sample heap, whose array of addresses has room for one more
    element, an append to the caller's own slice would write that array
    in place; Export, above, does not. *)
Example append_string_in_place :
  Mem.append_string Reference.double (Some (Mem.mkHeader 2%positive 0 2 3))
    "198.51.100.7:9000" Reference.sample_heap
  = Some (Some (Mem.mkHeader 2%positive 0 3 3),
          <[ 2%positive := Mem.CStrings
               ["192.0.2.1:9000"; "192.0.2.2:9000"; "198.51.100.7:9000"] ]>
            Reference.sample_heap).
Proof. vm_compute. reflexivity. Qed.

(** * More properties of the operations *)

Section Split_properties.

Lemma strings_Split_nonempty s sep : strings_Split s sep ≠ [].
Proof.
  destruct s as [|c rest]; simpl; [done|].
  case_decide; [done|]. by destruct (strings_Split rest sep).
Qed.

Lemma strings_Join_cons a elems sep :
  elems ≠ [] →
  strings_Join (a :: elems) sep = String.append a (String sep (strings_Join elems sep)).
Proof. by destruct elems. Qed.

Lemma strings_Join_String c piece pieces sep :
  strings_Join (String c piece :: pieces) sep
  = String c (strings_Join (piece :: pieces) sep).
Proof. by destruct pieces. Qed.

Lemma strings_Split_app a b sep :
  strings_Split (String.append a (String sep b)) sep
  = strings_Split a sep ++ strings_Split b sep.
Proof.
  induction a as [|c a IH]; simpl.
  - by rewrite decide_True.
  - case_decide; [by rewrite IH|].
    rewrite IH. pose proof (strings_Split_nonempty a sep).
    by destruct (strings_Split a sep).
Qed.

(** X1. The pieces [strings.Split] cuts a string into, joined again with
    the separator, are the string; no piece holds the separator, and
    there is one piece more than there are separators. *)
Theorem strings_Split_Join s sep :
  strings_Join (strings_Split s sep) sep = s
  ∧ Forall (λ piece, has_byte sep piece = false) (strings_Split s sep)
  ∧ length (strings_Split s sep) = S (count_byte sep s).
Proof.
  induction s as [|c rest (IHjoin & IHsep & IHlen)]; simpl.
  - by repeat constructor.
  - pose proof (strings_Split_nonempty rest sep) as Hne.
    case_decide as Hc.
    + subst c. split_and!.
      * rewrite strings_Join_cons by done. simpl. by rewrite IHjoin.
      * by constructor.
      * simpl. by rewrite IHlen.
    + destruct (strings_Split rest sep) as [|piece pieces]; [done|].
      split_and!.
      * by rewrite strings_Join_String, IHjoin.
      * inversion_clear IHsep as [|? ? Hp Hps]. constructor; [|done].
        simpl. rewrite Hp. by rewrite bool_decide_eq_false_2.
      * simpl in *. done.
Qed.

End Split_properties.

Section More_Export_properties.

Context {any : Type} {ext : Externals any}.
Implicit Types cc cfg : ConsensusConfig any.

(** X2. What is in the override list of Export: the entries of the
    override string other than the empty one and ["own"], and the node's
    own address when it is not empty and ["own"] is an entry.  So the
    list never holds an empty address, and holds ["own"] only when that
    is the node's own address. *)
Theorem Export_addresses_elem defaultaddresses thisnodeaddr a :
  a ∈ Export_addresses defaultaddresses thisnodeaddr
  ↔ (a ∈ strings_Split defaultaddresses ","%char ∧ a ≠ "" ∧ a ≠ "own")
    ∨ (a = thisnodeaddr ∧ thisnodeaddr ≠ ""
       ∧ "own" ∈ strings_Split defaultaddresses ","%char).
Proof.
  rewrite Export_addresses_spec. unfold spec_override_list.
  rewrite list_elem_of_omap. unfold spec_resolve_entry. split.
  - intros (entry & Hin & Hres).
    repeat case_decide; simplify_eq; auto.
  - intros [(Hin & Hne & Hown)|(-> & Hne & Hin)].
    + exists a. split; [done|]. by rewrite !decide_False.
    + exists "own". split; [done|]. simpl. by rewrite decide_False.
Qed.

(** X3. The override list of two override strings put together with a
    comma is the list of the first followed by the list of the second. *)
Theorem Export_addresses_app left right thisnodeaddr :
  Export_addresses (String.append left (String "," right)) thisnodeaddr
  = Export_addresses left thisnodeaddr ++ Export_addresses right thisnodeaddr.
Proof.
  rewrite !Export_addresses_spec. unfold spec_override_list.
  by rewrite strings_Split_app, omap_app.
Qed.

(** X4. When the two checks of Export pass, the configuration that is
    serialised has an address list and an application name that are not
    empty, and differs from the receiver in these two fields at most:
    with the receiver's list and name put back it is the receiver. *)
Theorem Export_merge_keeps_the_rest cc defaultaddresses appname thisnodeaddr exported :
  Export_merge cc defaultaddresses appname thisnodeaddr = Ok exported →
  InitNodesAddreses exported ≠ []
  ∧ Name (Application exported) ≠ ""
  ∧ set_Application_Name (Name (Application cc))
      (set_InitNodesAddreses (InitNodesAddreses cc) exported) = cc.
Proof.
  rewrite Export_merge_spec. unfold spec_Export_merge, spec_exported.
  repeat case_decide; try done. intros [= <-].
  split_and!; [done|done|]. by destruct cc as [[] ?].
Qed.

(** X5. The configuration Export serialises passes through the same
    merge, with the same arguments, unchanged. *)
Theorem Export_merge_idempotent cc defaultaddresses appname thisnodeaddr exported :
  Export_merge cc defaultaddresses appname thisnodeaddr = Ok exported →
  Export_merge exported defaultaddresses appname thisnodeaddr = Ok exported.
Proof.
  rewrite !Export_merge_spec. unfold spec_Export_merge at 1.
  destruct (decide (spec_address_list (InitNodesAddreses cc)
                      defaultaddresses thisnodeaddr = [])) as [|Haddr]; [done|].
  destruct (decide (spec_application_name (Name (Application cc)) appname = ""))
    as [|Hname]; [done|].
  intros [= <-]. unfold spec_Export_merge, spec_exported. simpl.
  rewrite spec_address_list_stable by done.
  rewrite spec_application_name_stable.
  by rewrite !decide_False by done.
Qed.

(** X6. When the override string gives no address, a configuration
    that has addresses keeps them as they are: the node's own address is
    not added, and an ["own"] or an empty entry of the existing list is
    not touched. *)
Theorem Export_keeps_existing_addresses cc defaultaddresses thisnodeaddr :
  Export_addresses defaultaddresses thisnodeaddr = [] →
  InitNodesAddreses cc ≠ [] →
  Export_merge_addresses cc defaultaddresses thisnodeaddr = cc.
Proof.
  intros Hnone Hsome. rewrite Export_merge_addresses_spec.
  unfold spec_address_list. rewrite <- Export_addresses_spec, Hnone.
  destruct cc as [? ? ? ? ? ? ? ? ? ? [|b k] ?]; [done|]. simpl.
  repeat (case_decide; simpl in * ); try done; intuition congruence.
Qed.

End More_Export_properties.

Section More_lifecycle_properties.

Context {any : Type} {ext : Externals any}.
Implicit Types cc cfg config : ConsensusConfig any.

(** X7. NewConfigFromFile leaves the file system as it is, and fails in
    two cases only: with the error of the read when the file cannot be
    read, and with the error of encoding/json when its content does not
    parse. *)
Theorem NewConfigFromFile_failure filepath (fs : FS) e :
  (NewConfigFromFile filepath fs).2 = fs
  ∧ ((NewConfigFromFile filepath fs).1 = Err e
     ↔ (∃ text, ioutil_ReadFile filepath fs = inl text ∧ e = ioutil_error text)
       ∨ (∃ data text,
            ioutil_ReadFile filepath fs = inr data
            ∧ json_Unmarshal data zero_Config = inl text
            ∧ e = json_error text)).
Proof.
  split; [apply NewConfigFromFile_fs|].
  unfold NewConfigFromFile, mbind, IO_bind, ReadFile, io_lift, Unmarshal.
  destruct (ioutil_ReadFile filepath fs) as [text|data] eqn:Hread; simpl.
  - split.
    + intros [= <-]. left. by exists text.
    + intros [(? & [= <-] & ->)|(? & ? & ? & _)]; done.
  - destruct (json_Unmarshal data zero_Config) as [text|parsed] eqn:Hparse; simpl.
    + split.
      * intros [= <-]. right. by exists data, text.
      * intros [(? & ? & _)|(? & ? & [= <-] & Hp & ->)]; [done|].
        rewrite Hparse in Hp. by injection Hp as <-.
    + split; [done|].
      intros [(? & ? & _)|(? & ? & [= <-] & Hp & _)]; [done|].
      by rewrite Hparse in Hp.
Qed.

Lemma fill_defaults_reward config :
  float64_is_zero (CoinsForBlockMade (fill_defaults config)) = false.
Proof.
  unfold fill_defaults, complete_PoW_settings.
  destruct (float64_is_zero (CoinsForBlockMade config)) eqn:Hzero;
    repeat (case_decide; simpl); done.
Qed.

Lemma fill_defaults_Kind config :
  Kind (fill_defaults config) ≠ ""
  ∧ Kind (fill_defaults config)
    = (if decide (Kind config = "") then KindConseususPoW else Kind config).
Proof.
  unfold fill_defaults, complete_PoW_settings.
  destruct (float64_is_zero (CoinsForBlockMade config));
    repeat (case_decide; simpl in * ); try done; split; congruence.
Qed.

Lemma fill_defaults_Settings config :
  Kind (fill_defaults config) = KindConseususPoW →
  Settings (fill_defaults config)
  = structs_Map (completeSettings
      (mapstructure_Decode (Settings config) zero_ProofOfWorkSettings)).
Proof.
  unfold fill_defaults, complete_PoW_settings.
  destruct (float64_is_zero (CoinsForBlockMade config));
    repeat (case_decide; simpl in * ); done.
Qed.

Lemma NewConfigFromFile_Ok filepath (fs fs' : FS) config :
  NewConfigFromFile filepath fs = (Ok config, fs') →
  fs' = fs
  ∧ ∃ parsed,
      config = set_filePath filepath (set_isDefault false (fill_defaults parsed)).
Proof.
  unfold NewConfigFromFile, mbind, IO_bind, ReadFile, io_lift, Unmarshal.
  destruct (ioutil_ReadFile filepath fs) as [text|data]; [done|].
  destruct (json_Unmarshal data zero_Config) as [text|parsed]; [done|].
  simpl. intros [= <- <-]. split; [done|]. by exists parsed.
Qed.

(** X8. A configuration that NewConfigFromFile returns has a reward
    that is not zero, and so has its GetInfoForTransactions; its Kind is
    not empty; with the proof-of-work Kind its settings are the map of
    completed settings; it is not default and its file path is the path
    it was loaded from. *)
Theorem NewConfigFromFile_invariant filepath (fs fs' : FS) config :
  NewConfigFromFile filepath fs = (Ok config, fs') →
  fs' = fs
  ∧ float64_is_zero (CoinsForBlockMade config) = false
  ∧ float64_is_zero (Info_CoinsForBlockMade (GetInfoForTransactions config)) = false
  ∧ Kind config ≠ ""
  ∧ (Kind config = KindConseususPoW →
     ∃ s, Settings config = structs_Map (completeSettings s))
  ∧ IsDefault config = false
  ∧ filePath (state config) = filepath.
Proof.
  intros Hload.
  apply NewConfigFromFile_Ok in Hload as (-> & parsed & ->).
  pose proof (fill_defaults_reward parsed) as Hreward.
  pose proof (fill_defaults_Kind parsed) as [Hkind _].
  split_and!; try done.
  intros Hpow. eexists. by apply fill_defaults_Settings.
Qed.

(** X9. With a settings struct that comes back from its map, and a
    completion that changes nothing the second time, the defaults of
    NewConfigFromFile find nothing to fill in a configuration they have
    been through. *)
Theorem fill_defaults_idempotent config :
  (∀ s, mapstructure_Decode (structs_Map s) zero_ProofOfWorkSettings = s) →
  (∀ s, completeSettings (completeSettings s) = completeSettings s) →
  defaults_filled (fill_defaults config)
  ∧ fill_defaults (fill_defaults config) = fill_defaults config.
Proof.
  intros Hdecode Hcomplete.
  assert (Hfilled : defaults_filled (fill_defaults config)).
  { split_and!.
    - apply fill_defaults_reward.
    - apply fill_defaults_Kind.
    - intros Hpow. rewrite (fill_defaults_Settings _ Hpow).
      by rewrite Hdecode, Hcomplete. }
  split; [done|]. by apply fill_defaults_filled.
Qed.

(** X10. The configuration of NewConfigDefault has no file: UpdateConfig
    on it fails with the error of the missing file path and writes
    nothing.  After SetConfigFilePath it still says default, and with a
    path that is not empty UpdateConfig writes to that path. *)
Theorem NewConfigDefault_has_no_file (fs : FS) jsondoc fp :
  ∃ c,
    NewConfigDefault fs = (Ok c, fs)
    ∧ UpdateConfig c jsondoc fs = (Err ErrFilePathMissed, fs)
    ∧ IsDefault (SetConfigFilePath fp c) = true
    ∧ (fp ≠ "" →
       UpdateConfig (SetConfigFilePath fp c) jsondoc fs
       = WriteFile fp jsondoc mode_0644 fs).
Proof.
  eexists. split_and!; try reflexivity.
  intros Hfp. unfold UpdateConfig. simpl. by rewrite decide_False.
Qed.

(** X11. UpdateConfig on a configuration loaded from a file is one write
    of the document to that file. *)
Theorem UpdateConfig_overwrites_loaded_file filepath (fs fs' : FS) config jsondoc :
  filepath ≠ "" →
  NewConfigFromFile filepath fs = (Ok config, fs') →
  UpdateConfig config jsondoc fs' = WriteFile filepath jsondoc mode_0644 fs'.
Proof.
  intros Hpath Hload.
  apply NewConfigFromFile_Ok in Hload as (_ & parsed & ->).
  unfold UpdateConfig. simpl. by rewrite decide_False.
Qed.

(** X12. UpdateConfig writes a document without looking at it: on a file
    system that returns what was written, NewConfigFromFile on the path
    of a configuration, after UpdateConfig succeeded, fails with the
    error of encoding/json when the document does not parse, and returns
    what the document parses to, with the defaults filled in, when it
    does. *)
Theorem UpdateConfig_then_NewConfigFromFile cc jsondoc (fs fs' : FS) :
  (∀ p d m (fs fs' : FS),
     ioutil_WriteFile p d m fs = (fs', None) → ioutil_ReadFile p fs' = inr d) →
  UpdateConfig cc jsondoc fs = (Ok (), fs') →
  filePath (state cc) ≠ ""
  ∧ NewConfigFromFile (filePath (state cc)) fs'
    = (match json_Unmarshal jsondoc zero_Config with
       | inl text => Err (json_error text)
       | inr parsed =>
           Ok (set_filePath (filePath (state cc))
                 (set_isDefault false (fill_defaults parsed)))
       end, fs').
Proof.
  intros Hfs. unfold UpdateConfig. case_decide as Hfp; [done|].
  unfold WriteFile.
  destruct (ioutil_WriteFile _ _ _ _) as [fs1 [text|]] eqn:Hw; [done|].
  intros [= <-]. split; [done|].
  apply Hfs in Hw.
  unfold NewConfigFromFile, mbind, IO_bind, ReadFile, io_lift, Unmarshal.
  rewrite Hw. by destruct (json_Unmarshal jsondoc zero_Config).
Qed.

Lemma fill_defaults_keeps config :
  InitNodesAddreses (fill_defaults config) = InitNodesAddreses config
  ∧ Application (fill_defaults config) = Application config.
Proof.
  unfold fill_defaults, complete_PoW_settings.
  destruct (float64_is_zero (CoinsForBlockMade config));
    repeat (case_decide; simpl in * ); done.
Qed.

Lemma Export_merge_Ok cc defaultaddresses appname thisnodeaddr exported :
  Export_merge cc defaultaddresses appname thisnodeaddr = Ok exported →
  InitNodesAddreses exported ≠ [] ∧ Name (Application exported) ≠ "".
Proof.
  rewrite Export_merge_spec. unfold spec_Export_merge, spec_exported.
  repeat case_decide; try done. by intros [= <-].
Qed.

(** X13. After ExportToFile succeeded with a document that parses back
    to the exported field values, on a file system that returns what was
    written, NewConfigFromFile on that file returns a configuration with
    the exported address list and application, both not empty, not
    default and with that path; and Export of it needs no override
    any more: its two checks pass whatever the node's own address. *)
Theorem ExportToFile_then_NewConfigFromFile cc filepath
    defaultaddresses appname thisnodeaddr (fs fs' : FS) exported doc :
  (∀ p d m (fs fs' : FS),
     ioutil_WriteFile p d m fs = (fs', None) → ioutil_ReadFile p fs' = inr d) →
  Export_merge cc defaultaddresses appname thisnodeaddr = Ok exported →
  json_Marshal exported = inr doc →
  json_Unmarshal doc zero_Config = inr (set_state zero_State exported) →
  ExportToFile cc filepath defaultaddresses appname thisnodeaddr fs = (Ok (), fs') →
  ∃ loaded,
    NewConfigFromFile filepath fs' = (Ok loaded, fs')
    ∧ InitNodesAddreses loaded = InitNodesAddreses exported
    ∧ InitNodesAddreses loaded ≠ []
    ∧ Application loaded = Application exported
    ∧ Name (Application loaded) ≠ ""
    ∧ state loaded = mkState false filepath
    ∧ ∀ self, Export_merge loaded "" "" self = Ok loaded.
Proof.
  intros Hfs Hmerge Hmarshal Hparse.
  unfold ExportToFile, Export, mbind, IO_bind, io_lift, Marshal.
  rewrite Hmerge, Hmarshal. simpl. unfold WriteFile.
  destruct (ioutil_WriteFile _ _ _ _) as [fs1 [text|]] eqn:Hw; [done|].
  intros [= <-]. apply Hfs in Hw.
  destruct (Export_merge_Ok _ _ _ _ _ Hmerge) as (Haddr & Hname).
  eexists. split; [by eapply NewConfigFromFile_parsed|].
  destruct (fill_defaults_keeps (set_state zero_State exported)) as [Hl Ha].
  assert (Hl' : InitNodesAddreses
            (set_filePath filepath (set_isDefault false
               (fill_defaults (set_state zero_State exported))))
          = InitNodesAddreses exported) by done.
  assert (Ha' : Application
            (set_filePath filepath (set_isDefault false
               (fill_defaults (set_state zero_State exported))))
          = Application exported) by done.
  split_and!; try done.
  - by rewrite Hl'.
  - by rewrite Ha'.
  - intros self. rewrite Export_merge_spec.
    unfold spec_Export_merge, spec_exported, spec_application_name.
    rewrite Hl', Ha'. rewrite (decide_True (P := "" = "")) by done.
    assert (Hkeep : spec_address_list (InitNodesAddreses exported) "" self
                    = InitNodesAddreses exported).
    { unfold spec_address_list. simpl.
      destruct (InitNodesAddreses exported); [done|].
      simpl. repeat case_decide; try done; intuition congruence. }
    rewrite Hkeep. rewrite !decide_False by done.
    rewrite <- Hl' at 1. rewrite set_InitNodesAddreses_id.
    rewrite <- Ha'. by rewrite set_Application_Name_id.
Qed.

End More_lifecycle_properties.

(** * These properties on the executable instance *)

Lemma Export_merge_keeps_the_rest_witness :
  InitNodesAddreses
    (set_InitNodesAddreses ["203.0.113.5:9000"; "192.0.2.9:9000"]
       (set_Application_Name "Other" Reference.sample)) ≠ []
  ∧ Name (Application
      (set_InitNodesAddreses ["203.0.113.5:9000"; "192.0.2.9:9000"]
         (set_Application_Name "Other" Reference.sample))) ≠ ""
  ∧ set_Application_Name (Name (Application Reference.sample))
      (set_InitNodesAddreses (InitNodesAddreses Reference.sample)
         (set_InitNodesAddreses ["203.0.113.5:9000"; "192.0.2.9:9000"]
            (set_Application_Name "Other" Reference.sample)))
    = Reference.sample.
Proof.
  apply (Export_merge_keeps_the_rest Reference.sample
           "own,192.0.2.9:9000" "Other" "203.0.113.5:9000").
  vm_compute. reflexivity.
Defined.

Lemma Export_merge_idempotent_witness :
  Export_merge
    (set_InitNodesAddreses ["203.0.113.5:9000"; "192.0.2.9:9000"]
       (set_Application_Name "Other" Reference.sample))
    "own,192.0.2.9:9000" "Other" "203.0.113.5:9000"
  = Ok (set_InitNodesAddreses ["203.0.113.5:9000"; "192.0.2.9:9000"]
          (set_Application_Name "Other" Reference.sample)).
Proof.
  apply (Export_merge_idempotent Reference.sample).
  vm_compute. reflexivity.
Defined.

Lemma Export_keeps_existing_addresses_witness :
  Export_merge_addresses
    (set_InitNodesAddreses ["own"; ""; "192.0.2.1:9000"] Reference.sample)
    ",," "203.0.113.5:9000"
  = set_InitNodesAddreses ["own"; ""; "192.0.2.1:9000"] Reference.sample.
Proof.
  apply Export_keeps_existing_addresses.
  - vm_compute. reflexivity.
  - done.
Defined.

Lemma NewConfigFromFile_invariant_witness :
  ∃ config,
    NewConfigFromFile (ext := Reference.externals) "consensus.json"
      Reference.bare_fs = (Ok config, Reference.bare_fs)
    ∧ float64_is_zero (CoinsForBlockMade config) = false
    ∧ Kind config ≠ ""
    ∧ IsDefault config = false.
Proof.
  eexists. split; [vm_compute; reflexivity|].
  edestruct (NewConfigFromFile_invariant (ext := Reference.externals)
               "consensus.json" Reference.bare_fs)
    as (_ & Hreward & _ & Hkind & _ & Hdefault & _).
  { vm_compute. reflexivity. }
  done.
Defined.

Lemma fill_defaults_idempotent_witness :
  defaults_filled (ext := Reference.externals) (fill_defaults Reference.bare)
  ∧ fill_defaults (ext := Reference.externals) (fill_defaults Reference.bare)
    = fill_defaults Reference.bare.
Proof.
  apply (fill_defaults_idempotent (ext := Reference.externals)).
  - intros s. simpl. unfold Reference.Decode, Reference.Map.
    by rewrite lookup_singleton_eq.
  - intros s. simpl. unfold Reference.complete. by repeat case_decide.
Defined.

Lemma UpdateConfig_overwrites_loaded_file_witness :
  ∃ config,
    NewConfigFromFile (ext := Reference.externals) "consensus.json"
      Reference.sample_fs = (Ok config, Reference.sample_fs)
    ∧ UpdateConfig config Reference.bare_doc Reference.sample_fs
      = (Ok (), Reference.bare_fs).
Proof.
  eexists. split; [vm_compute; reflexivity|].
  erewrite (UpdateConfig_overwrites_loaded_file (ext := Reference.externals)
              "consensus.json" Reference.sample_fs Reference.sample_fs).
  - vm_compute. reflexivity.
  - done.
  - vm_compute. reflexivity.
Defined.

Lemma UpdateConfig_then_NewConfigFromFile_witness :
  NewConfigFromFile (ext := Reference.externals) "consensus.json"
    {[ "consensus.json" := [Byte.x7b; Byte.x7d] ]}
  = (Err (json_error "invalid character"),
     {[ "consensus.json" := [Byte.x7b; Byte.x7d] ]}).
Proof.
  destruct (UpdateConfig_then_NewConfigFromFile (ext := Reference.externals)
              (SetConfigFilePath "consensus.json" Reference.sample)
              [Byte.x7b; Byte.x7d] ∅ {[ "consensus.json" := [Byte.x7b; Byte.x7d] ]})
    as [_ Hload].
  - apply Reference_write_read.
  - vm_compute. reflexivity.
  - exact Hload.
Defined.

Lemma ExportToFile_then_NewConfigFromFile_witness :
  ∃ loaded,
    NewConfigFromFile (ext := Reference.externals) "consensus.json"
      Reference.sample_fs = (Ok loaded, Reference.sample_fs)
    ∧ InitNodesAddreses loaded = ["192.0.2.1:9000"; "192.0.2.2:9000"]
    ∧ Name (Application loaded) = "MyChain"
    ∧ ∀ self, Export_merge loaded "" "" self = Ok loaded.
Proof.
  destruct (ExportToFile_then_NewConfigFromFile (ext := Reference.externals)
              Reference.sample "consensus.json" "" "" "" ∅ Reference.sample_fs
              Reference.sample Reference.sample_doc)
    as (loaded & Hload & Haddr & _ & Happ & _ & _ & Hexport).
  - apply Reference_write_read.
  - vm_compute. reflexivity.
  - vm_compute. reflexivity.
  - vm_compute. reflexivity.
  - vm_compute. reflexivity.
  - exists loaded. split_and!; [done| | |done].
    + by rewrite Haddr.
    + by rewrite Happ.
Defined.

Lemma SetConfigFilePath_writes_caller_witness :
  ∃ mc',
    Mem.SetConfigFilePath 1%positive "consensus.json" Reference.sample_heap
    = Some ((), <[1%positive := Mem.CStruct mc']> Reference.sample_heap)
    ∧ Mem.read_config Reference.sample_heap mc'
      = Some (SetConfigFilePath "consensus.json" Reference.sample).
Proof.
  apply (SetConfigFilePath_writes_caller (any := Z) Reference.sample_heap
           1%positive Reference.sample_mem).
  - vm_compute. reflexivity.
  - vm_compute. reflexivity.
Defined.
